(** * flashcards.py: a shallow embedding and its properties

    The program reads a text file into the global list [flashcards]
    (one card per line, blank lines and [#] comments dropped) and then
    prints a randomly chosen card every [wait] seconds until a hotkey
    sets the global flag [stop_flashcards].

    Python strings are sequences of Unicode code points, so a [str] is
    a list of code points.  The file system, the random generator and
    the keyboard are the environment: a function from paths to what
    [open(...).read()] gives, a sequence of raw draws, and a schedule
    of hotkey presses. *)

From Stdlib Require Import List NArith ZArith Bool Lia Arith String Ascii.
Import ListNotations.

(** ** Strings *)

Module Str.

Definition char := N.
Definition str := list char.

(** A literal, as written in the source. *)
Definition lit (s : string) : str :=
  map N_of_ascii (list_ascii_of_string s).

Definition char_eqb (a b : char) : bool := N.eqb a b.

Fixpoint eqb (a b : str) : bool :=
  match a, b with
  | [], [] => true
  | x :: a', y :: b' => char_eqb x y && eqb a' b'
  | _, _ => false
  end.

Definition LF : char := 10%N.
Definition CR : char := 13%N.
Definition HASH : char := 35%N.

(** The line boundaries of [str.splitlines]: \n, \v, \f, \r, \x1c,
    \x1d, \x1e, \x85, U+2028 and U+2029. *)
Definition is_linebreak (c : char) : bool :=
  existsb (N.eqb c)
    [10; 11; 12; 13; 28; 29; 30; 133; 8232; 8233]%N.

(** [s.splitlines()] with keepends false.  [cur] holds, reversed,
    the characters of the line being scanned.  A \r directly followed
    by \n is one boundary.  No line is produced for what follows the
    last boundary when nothing follows it. *)
Fixpoint splitlines_from (cur : str) (s : str) : list str :=
  match s with
  | [] => match cur with [] => [] | _ => [rev cur] end
  | c :: rest =>
      if is_linebreak c then
        rev cur ::
          match rest with
          | c' :: rest' =>
              if char_eqb c CR && char_eqb c' LF
              then splitlines_from [] rest'
              else splitlines_from [] rest
          | [] => splitlines_from [] rest
          end
      else splitlines_from (c :: cur) rest
  end.

Definition splitlines (s : str) : list str := splitlines_from [] s.

End Str.

Import Str.

(** ** Python values, exceptions and the global state *)

(** The exceptions the program can meet.  [OSError] stands for the
    class and its subclasses (FileNotFoundError, PermissionError, ...)
    and carries [str(e)]; [UnicodeDecodeError] is a ValueError, not an
    OSError. *)
Inductive exn : Type :=
| OSError (msg : str)
| UnicodeDecodeError (msg : str)
| IndexError
| TypeError
| ValueError
| SystemExit (code : Z).

(** The values [args.wait] can hold. *)
Inductive value : Type :=
| VInt (n : Z)
| VStr (s : str).

Inductive res (A : Type) : Type :=
| Ret (a : A)
| Raise (e : exn).
Arguments Ret {A} a.
Arguments Raise {A} e.

(** The module's global variables and what has been printed: one
    element of [stdout] per call of [print], oldest first. *)
Record world : Type := World {
  flashcards : list str;
  stop_flashcards : bool;
  stdout : list str
}.

Definition set_flashcards (cards : list str) (w : world) : world :=
  World cards (stop_flashcards w) (stdout w).

Definition print (line : str) (w : world) : world :=
  World (flashcards w) (stop_flashcards w) (stdout w ++ [line]).

(** Module initialisation, lines 34-35. *)
Definition initial_world : world := World [] false [].

(** What [open(path)] followed by [f.read()] does in the environment. *)
Inductive read_result : Type :=
| ReadOk (text : str)
| ReadRaises (e : exn).

(** The environment of a run: the file system, the raw draws of the
    random generator ([rng k] is the k-th draw) and the keyboard
    ([keys t] says whether Esc or q is pressed just before the t-th
    statement of the display loop executes). *)
Record env : Type := Env {
  fs : str -> read_result;
  rng : nat -> nat;
  keys : nat -> bool
}.

(** A computation over the global state that returns or raises. *)
Definition M (A : Type) : Type := world -> res A * world.

Definition ret {A} (a : A) : M A := fun w => (Ret a, w).

Definition bind {A B} (m : M A) (k : A -> M B) : M B :=
  fun w =>
    match m w with
    | (Ret a, w') => k a w'
    | (Raise e, w') => (Raise e, w')
    end.

Definition raise {A} (e : exn) : M A := fun w => (Raise e, w).

Definition do_print (line : str) : M unit := fun w => (Ret tt, print line w).

Notation "x <- m ;; k" := (bind m (fun x => k))
  (at level 61, m at next level, right associativity).
Notation "m ;;; k" := (bind m (fun _ => k))
  (at level 61, right associativity).

(** ** load_flashcards (lines 38-67) *)

(** [card and card[0] != '#'] *)
Definition keep_card (card : str) : bool :=
  match card with
  | [] => false
  | c :: _ => negb (char_eqb c HASH)
  end.

Definition load_flashcards (fs : str -> read_result) (flashcard_file : str)
  : M bool :=
  fun w =>
    match fs flashcard_file with
    | ReadOk text =>
        let w1 := set_flashcards (splitlines text) w in
        let w2 := set_flashcards (filter keep_card (flashcards w1)) w1 in
        (Ret true, w2)
    | ReadRaises (OSError msg) => (Ret false, print msg w)
    | ReadRaises e => (Raise e, w)
    end.

(** ** quit_flashcards (lines 70-73) *)

Definition quit_flashcards (w : world) : world :=
  World (flashcards w) true (stdout w).

(** ** show_flashcards (lines 76-98) *)

(** [random.choice(seq)]: IndexError on an empty sequence, otherwise the
    element at an index below [len(seq)] taken from the draw. *)
Definition random_choice (draw : nat) (seq : list str) : res str :=
  match seq with
  | [] => Raise IndexError
  | c :: _ => Ret (List.nth (draw mod List.length seq) seq c)
  end.

(** [time.sleep(secs)]: a str is a TypeError, a negative number a
    ValueError.  Numbers too large for the C time type, which raise
    OverflowError, are not told apart from the others: [main] passes
    only the int 5 or a str. *)
Definition time_sleep (secs : value) : res unit :=
  match secs with
  | VInt n => if (n <? 0)%Z then Raise ValueError else Ret tt
  | VStr _ => Raise TypeError
  end.

(** [card == last_card], where [last_card] is None or a str. *)
Definition same_card (card : str) (last_card : option str) : bool :=
  match last_card with
  | None => false
  | Some l => Str.eqb card l
  end.

(** The statement about to execute, by source line, or how the
    function ended. *)
Inductive pc : Type :=
| L92   (* while not stop_flashcards: *)
| L93   (*     card = random.choice(flashcards) *)
| L94   (*     while card == last_card: *)
| L95   (*         card = random.choice(flashcards) *)
| L96   (*     print(card) *)
| L97   (*     last_card = card *)
| L98   (*     time.sleep(wait) *)
| Returned
| Raised (e : exn).

(** The locals of [show_flashcards] with the global state.  [draws]
    counts the calls of the random generator and [slept] the calls of
    [time.sleep] that have returned. *)
Record loop_state : Type := LoopState {
  at_pc : pc;
  card : str;
  last_card : option str;
  globals : world;
  draws : nat;
  slept : nat
}.

(** Lines 87-91: the hotkeys are registered, the generator is seeded,
    [last_card = None].  [card] is not yet bound; line 93 binds it
    before any use. *)
Definition loop_init (w : world) : loop_state :=
  LoopState L92 [] None w 0 0.

Definition step (wait : value) (rng : nat -> nat) (st : loop_state)
  : loop_state :=
  let '(LoopState p c l w d s) := st in
  match p with
  | L92 =>
      if stop_flashcards w
      then LoopState Returned c l w d s
      else LoopState L93 c l w d s
  | L93 =>
      match random_choice (rng d) (flashcards w) with
      | Ret c' => LoopState L94 c' l w (S d) s
      | Raise e => LoopState (Raised e) c l w d s
      end
  | L94 =>
      if same_card c l
      then LoopState L95 c l w d s
      else LoopState L96 c l w d s
  | L95 =>
      match random_choice (rng d) (flashcards w) with
      | Ret c' => LoopState L94 c' l w (S d) s
      | Raise e => LoopState (Raised e) c l w d s
      end
  | L96 => LoopState L97 c l (print c w) d s
  | L97 => LoopState L98 c (Some c) w d s
  | L98 =>
      match time_sleep wait with
      | Ret _ => LoopState L92 c l w d (S s)
      | Raise e => LoopState (Raised e) c l w d s
      end
  | Returned => st
  | Raised _ => st
  end.

(** A pressed hotkey runs its callback, [quit_flashcards]; once the
    function has ended the callback still only sets the flag. *)
Definition deliver (pressed : bool) (st : loop_state) : loop_state :=
  if pressed
  then LoopState (at_pc st) (card st) (last_card st)
         (quit_flashcards (globals st)) (draws st) (slept st)
  else st.

(** [run wait e n t st]: [n] statements from [st], the first one being
    statement number [t] of the schedule. *)
Fixpoint run (wait : value) (e : env) (n t : nat) (st : loop_state)
  : loop_state :=
  match n with
  | O => st
  | S n' => run wait e n' (S t) (step wait (rng e) (deliver (keys e t) st))
  end.

Definition show_flashcards (wait : value) (e : env) (n : nat) (w : world)
  : loop_state :=
  run wait e n 0 (loop_init w).

(** ** main (lines 101-121) *)

Definition VERSION : str := lit "v1.00".

Record namespace : Type := Namespace {
  ns_flashcards : str;
  ns_wait : value
}.

(** A token that can be the value of an option: it does not start
    with a dash. *)
Definition plain (tok : str) : bool :=
  match tok with
  | c :: _ => negb (char_eqb c 45%N)
  | [] => true
  end.

(** [arg_parser.parse_args()] for the two options of lines 109-112,
    each given as a flag followed by its value, and for -h.  Neither
    option has a [type], so a value is stored as the str it was typed
    as; the defaults are the str 'flashcards.txt' and the int 5.  A
    missing value is argparse's error exit, status 2.  For -h only
    the exit is modelled, not the help text argparse writes first.
    [None] is a
    command line outside this fragment of argparse's grammar
    (abbreviations, [--wait=3], positionals, values starting with a
    dash); nothing is claimed about those. *)
Fixpoint parse_args (argv : list str) (ns : namespace)
  : option (res namespace) :=
  match argv with
  | [] => Some (Ret ns)
  | flag :: rest =>
      if Str.eqb flag (lit "-f") || Str.eqb flag (lit "--flashcards") then
        match rest with
        | [] => Some (Raise (SystemExit 2))
        | v :: rest' =>
            if plain v
            then parse_args rest' (Namespace v (ns_wait ns))
            else None
        end
      else if Str.eqb flag (lit "-w") || Str.eqb flag (lit "--wait") then
        match rest with
        | [] => Some (Raise (SystemExit 2))
        | v :: rest' =>
            if plain v
            then parse_args rest' (Namespace (ns_flashcards ns) (VStr v))
            else None
        end
      else if Str.eqb flag (lit "-h") || Str.eqb flag (lit "--help") then
        Some (Raise (SystemExit 0))
      else None
  end.

Definition default_namespace : namespace :=
  Namespace (lit "flashcards.txt") (VInt 5).

(** Lines 102-105. *)
Definition splash : M unit :=
  do_print (lit "===================") ;;;
  do_print (lit "Flashcards    " ++ VERSION) ;;;
  do_print (lit "===================" ++ [LF]).

(** Lines 117-118: [exit(1)] raises SystemExit(1). *)
Definition load_or_exit (e : env) (flashcard_file : str) : M unit :=
  ok <- load_flashcards (fs e) flashcard_file ;;
  if ok then ret tt else raise (SystemExit 1).

(** The global state when line 108 is reached. *)
Definition after_splash : world := snd (splash initial_world).

(** The exit status of the interpreter when [main] ends by [r]. *)
Definition exit_status (r : res unit) : Z :=
  match r with
  | Ret _ => 0
  | Raise (SystemExit code) => code
  | Raise _ => 1
  end.

(** What is known of the process after [main] has run for [n]
    statements of the display loop: it has ended, with what [main]
    returned or raised, or it is still inside [show_flashcards]. *)
Inductive process : Type :=
| Ended (r : res unit) (w : world)
| Showing (st : loop_state).

Definition finish (st : loop_state) : process :=
  match at_pc st with
  | Returned => Ended (Ret tt) (globals st)
  | Raised e => Ended (Raise e) (globals st)
  | _ => Showing st
  end.

Definition main (e : env) (argv : list str) (n : nat) : option process :=
  match splash initial_world with
  | (Raise x, w) => Some (Ended (Raise x) w)
  | (Ret _, w) =>
      match parse_args argv default_namespace with
      | None => None
      | Some (Raise x) => Some (Ended (Raise x) w)
      | Some (Ret args) =>
          let flashcard_file := ns_flashcards args in
          let wait := ns_wait args in
          match load_or_exit e flashcard_file w with
          | (Raise x, w') => Some (Ended (Raise x) w')
          | (Ret _, w') => Some (finish (show_flashcards wait e n w'))
          end
      end
  end.

(** The exit status of a process that has ended, and what a process
    has printed so far. *)
Definition exit_code (p : process) : option Z :=
  match p with
  | Ended r _ => Some (exit_status r)
  | Showing _ => None
  end.

Definition output (p : process) : list str :=
  match p with
  | Ended _ w => stdout w
  | Showing st => stdout (globals st)
  end.

(** ** A text file seen as its lines *)

(** The line terminators [str.splitlines] knows. *)
Inductive eol : Type :=
| EolLF | EolCR | EolCRLF | EolVT | EolFF | EolFS | EolGS | EolRS
| EolNEL | EolLS | EolPS.

Definition eol_chars (t : eol) : str :=
  match t with
  | EolLF => [10] | EolCR => [13] | EolCRLF => [13; 10]
  | EolVT => [11] | EolFF => [12]
  | EolFS => [28] | EolGS => [29] | EolRS => [30]
  | EolNEL => [133] | EolLS => [8232] | EolPS => [8233]
  end%N.

Definition no_linebreak (l : str) : bool :=
  forallb (fun c => negb (is_linebreak c)) l.

(** The text of a file made of terminated lines, followed by [last],
    the characters after the last terminator (empty when the file ends
    with a terminator). *)
Fixpoint file_text (ls : list (str * eol)) (last : str) : str :=
  match ls with
  | [] => last
  | (l, t) :: ls' => l ++ eol_chars t ++ file_text ls' last
  end.

Definition starts_with_LF (s : str) : bool :=
  match s with
  | c :: _ => char_eqb c LF
  | [] => false
  end.

Definition is_EolCR (t : eol) : bool :=
  match t with EolCR => true | _ => false end.

(** The lines are lines: no terminator inside a line, and a lone \r is
    not followed by a \n (the two would read as one \r\n). *)
Fixpoint well_formed (ls : list (str * eol)) (last : str) : bool :=
  match ls with
  | [] => no_linebreak last
  | (l, t) :: ls' =>
      no_linebreak l
      && negb (is_EolCR t && starts_with_LF (file_text ls' last))
      && well_formed ls' last
  end.

(** The lines of such a file, without their terminators. *)
Definition lines_of (ls : list (str * eol)) (last : str) : list str :=
  map fst ls ++ match last with [] => [] | _ => [last] end.

(** A line the spec excludes: empty, or its first character is [#]. *)
Definition excluded (line : str) : Prop :=
  line = [] \/ exists rest, line = HASH :: rest.

(** The spec's loader, in its words: discard the excluded lines and
    return the remaining ones in their original order. *)
Inductive retained : list str -> list str -> Prop :=
| retained_nil : retained [] []
| retained_drop line lines cards :
    excluded line -> retained lines cards -> retained (line :: lines) cards
| retained_keep line lines cards :
    ~ excluded line -> retained lines cards ->
    retained (line :: lines) (line :: cards).

(** ** Displayed cards *)

(** No element equals the one just before it. *)
Fixpoint no_repeat (shown : list str) : Prop :=
  match shown with
  | a :: (b :: _) as rest => a <> b /\ no_repeat rest
  | _ => True
  end.

(** The last element, if any. *)
Definition last_shown (shown : list str) : option str :=
  match rev shown with
  | [] => None
  | c :: _ => Some c
  end.

(** What holds of the loop after every statement, [shown] being the
    cards printed since the loop was entered with [out0] already
    printed and [deck] as the deck. *)
Definition loop_inv (out0 : list str) (deck : list str) (st : loop_state)
  (shown : list str) : Prop :=
  stdout (globals st) = out0 ++ shown
  /\ flashcards (globals st) = deck
  /\ no_repeat shown
  /\ Forall (fun c => In c deck) shown
  /\ match at_pc st with
     | L94 | L95 => last_card st = last_shown shown /\ In (card st) deck
     | L96 =>
         last_card st = last_shown shown /\ In (card st) deck
         /\ same_card (card st) (last_card st) = false
     | L97 => last_shown shown = Some (card st)
     | _ => last_card st = last_shown shown
     end.

(** Environments for examples. *)
Definition one_file (text : str) (draw : nat -> nat) (key : nat -> bool)
  : env :=
  Env (fun _ => ReadOk text) draw key.


(** ** Further notions used in the properties *)

(** [isinstance(x, OSError)]: what the handler of line 61 catches. *)
Definition is_OSError (x : exn) : bool :=
  match x with
  | OSError _ => true
  | _ => false
  end.

(** Terminated lines followed by any text [rest]: no terminator inside
    a line, and no lone \r directly before a \n. *)
Fixpoint lines_ok (ls : list (str * eol)) (rest : str) : bool :=
  match ls with
  | [] => true
  | (l, t) :: ls' =>
      no_linebreak l
      && negb (is_EolCR t && starts_with_LF (file_text ls' rest))
      && lines_ok ls' rest
  end.

(** A hotkey is pressed just before one of the [n] statements that
    start with statement [t]. *)
Fixpoint pressed (e : env) (t n : nat) : bool :=
  match n with
  | O => false
  | S n' => keys e t || pressed e (S t) n'
  end.

(** The function is still executing: it has neither returned nor
    raised. *)
Definition running (p : pc) : bool :=
  match p with
  | Returned | Raised _ => false
  | _ => true
  end.


(** What holds of the printed lines and the completed sleeps after
    every statement, [base] lines having been printed before the loop:
    a card is printed, then one sleep follows. *)
Definition paced (base : nat) (st : loop_state) : Prop :=
  let k := List.length (stdout (globals st)) in
  match at_pc st with
  | L97 | L98 => k = base + S (slept st)
  | Raised _ => k = base + slept st \/ k = base + S (slept st)
  | _ => k = base + slept st
  end.

(** ** The lines of a text file *)

(** The newline characters of a text file: \n and \r. *)
Definition is_newline (c : char) : bool :=
  char_eqb c LF || char_eqb c CR.

(** The lines of a text as a text file has them, in the spec's sense:
    each ends at \n, \r\n or \r, and nothing but these ends a line.
    No line is counted for what follows the last newline when nothing
    follows it. *)
Fixpoint text_lines_from (cur : str) (s : str) : list str :=
  match s with
  | [] => match cur with [] => [] | _ => [rev cur] end
  | c :: rest =>
      if is_newline c then
        rev cur ::
          match rest with
          | c' :: rest' =>
              if char_eqb c CR && char_eqb c' LF
              then text_lines_from [] rest'
              else text_lines_from [] rest
          | [] => text_lines_from [] rest
          end
      else text_lines_from (c :: cur) rest
  end.

Definition text_lines (s : str) : list str := text_lines_from [] s.

(** The characters at which [str.splitlines] splits although they are
    no newline: \v, \f, \x1c, \x1d, \x1e, \x85, U+2028 and U+2029. *)
Definition extra_boundary (c : char) : bool :=
  is_linebreak c && negb (is_newline c).

(** A text none of whose characters is such a boundary. *)
Definition plain_text (s : str) : bool :=
  forallb (fun c => negb (extra_boundary c)) s.

(** * Properties *)

(** ** Strings and splitlines *)

Section StrFacts.

Lemma str_eqb_refl (a : str) : Str.eqb a a = true.
Proof.
  induction a as [|x a IH]; simpl; trivial.
  unfold char_eqb. now rewrite N.eqb_refl.
Qed.

Lemma str_eqb_eq (a b : str) : Str.eqb a b = true <-> a = b.
Proof.
  split.
  - revert b. induction a as [|x a IH]; destruct b as [|y b]; simpl;
      try discriminate; trivial.
    intros H. apply andb_true_iff in H. destruct H as [Hx Hr].
    apply N.eqb_eq in Hx. apply IH in Hr. congruence.
  - intros ->. apply str_eqb_refl.
Qed.

Lemma str_eqb_neq (a b : str) : Str.eqb a b = false <-> a <> b.
Proof.
  split.
  - intros H E. apply str_eqb_eq in E. congruence.
  - intros H. destruct (Str.eqb a b) eqn:E; trivial.
    apply str_eqb_eq in E. contradiction.
Qed.



(** Scanning over characters that are no line boundary only grows
    the current line. *)
Lemma splitlines_from_line (l : str) :
  no_linebreak l = true ->
  forall cur s, splitlines_from cur (l ++ s) = splitlines_from (rev l ++ cur) s.
Proof.
  induction l as [|c l IH]; intros Hl cur s; simpl; trivial.
  simpl in Hl. apply andb_true_iff in Hl. destruct Hl as [Hc Hl].
  apply negb_true_iff in Hc. rewrite Hc, (IH Hl).
  now rewrite <- app_assoc.
Qed.

(** A terminator closes the current line. *)
Lemma splitlines_from_eol (t : eol) (cur s : str) :
  is_EolCR t && starts_with_LF s = false ->
  splitlines_from cur (eol_chars t ++ s) = rev cur :: splitlines_from [] s.
Proof.
  intros H. destruct t; simpl in *;
    try (destruct s as [|c' s']; reflexivity).
  destruct s as [|c' s']; simpl in *; trivial.
  unfold char_eqb in *. now rewrite H.
Qed.

(** [splitlines] gives back the lines a text was made of. *)
Lemma splitlines_file_text (ls : list (str * eol)) (last : str) :
  well_formed ls last = true ->
  splitlines (file_text ls last) = lines_of ls last.
Proof.
  unfold splitlines, lines_of.
  induction ls as [|[l t] ls IH]; simpl; intros H.
  - rewrite <- (app_nil_r last) at 1.
    rewrite (splitlines_from_line last H). simpl. rewrite app_nil_r.
    destruct last as [|c last]; simpl; trivial.
    destruct (rev last ++ [c]) eqn:E.
    + now destruct (rev last).
    + rewrite <- E. change (rev last ++ [c]) with (rev (c :: last)).
      now rewrite rev_involutive.
  - apply andb_true_iff in H. destruct H as [H Hwf].
    apply andb_true_iff in H. destruct H as [Hl Hcr].
    apply negb_true_iff in Hcr.
    rewrite (splitlines_from_line l Hl), (splitlines_from_eol _ _ _ Hcr).
    rewrite app_nil_r, rev_involutive. f_equal. now apply IH.
Qed.



Lemma keep_card_false (c : str) : keep_card c = false <-> excluded c.
Proof.
  unfold excluded. destruct c as [|x c]; simpl.
  - split; auto.
  - rewrite negb_false_iff. unfold char_eqb. rewrite N.eqb_eq. split.
    + intros ->. right. now exists c.
    + intros [H|[r H]]; [discriminate|]. now inversion H.
Qed.

Lemma keep_card_true (c : str) : keep_card c = true <-> ~ excluded c.
Proof.
  rewrite <- keep_card_false. destruct (keep_card c); split; congruence.
Qed.

End StrFacts.

(** ** The loader *)

Section Loader.

Variable fs : str -> read_result.

Lemma eol_of_linebreak (c : char) :
  is_linebreak c = true ->
  exists t, eol_chars t = [c] /\ (is_EolCR t = true -> c = CR).
Proof.
  unfold is_linebreak. simpl. rewrite !orb_true_iff, !N.eqb_eq.
  intros [H|[H|[H|[H|[H|[H|[H|[H|[H|[H|H]]]]]]]]]]; subst;
    [exists EolLF|exists EolVT|exists EolFF|exists EolCR|exists EolFS
    |exists EolGS|exists EolRS|exists EolNEL|exists EolLS|exists EolPS
    |discriminate]; (split; [reflexivity|simpl; intros; (reflexivity || discriminate)]).
Qed.

(** Every text is made of lines: the well-formed line structures cover
    all that [read] can return. *)
Lemma every_text_has_lines (n : nat) :
  forall text, List.length text <= n ->
  exists ls last, well_formed ls last = true /\ file_text ls last = text.
Proof.
  induction n as [|n IH]; intros text Hn.
  - destruct text; simpl in Hn; [|lia]. now exists [], [].
  - destruct text as [|c rest]; [now exists [], []|]. simpl in Hn.
    destruct (is_linebreak c) eqn:Ec.
    + destruct (char_eqb c CR && starts_with_LF rest) eqn:Ecr.
      * apply andb_true_iff in Ecr. destruct Ecr as [E1 E2].
        apply N.eqb_eq in E1. subst c.
        destruct rest as [|c' rest']; [discriminate|]. simpl in E2.
        apply N.eqb_eq in E2. subst c'. simpl in Hn.
        destruct (IH rest') as (ls & last & Hwf & Ht); [lia|].
        exists (([], EolCRLF) :: ls), last. simpl. rewrite Hwf, Ht.
        now split.
      * destruct (IH rest) as (ls & last & Hwf & Ht); [lia|].
        destruct (eol_of_linebreak c Ec) as (t & Hc & Hcr).
        exists (([], t) :: ls), last. simpl. rewrite Hwf, Ht, Hc.
        split; trivial. simpl. rewrite andb_true_r. apply negb_true_iff.
        destruct (is_EolCR t) eqn:Et; trivial. simpl.
        rewrite (Hcr eq_refl) in Ecr. exact Ecr.
    + destruct (IH rest) as (ls & last & Hwf & Ht); [lia|].
      destruct ls as [|[l t] ls].
      * exists [], (c :: last). simpl in *. rewrite Ec, Hwf, Ht. now split.
      * exists ((c :: l, t) :: ls), last. simpl in *.
        rewrite Ec, Ht. now split.
Qed.

(** The comprehension of line 66 keeps what the spec retains. *)
Lemma filter_retained (lines : list str) :
  retained lines (filter keep_card lines).
Proof.
  induction lines as [|l lines IH]; simpl; [constructor|].
  destruct (keep_card l) eqn:E.
  - apply retained_keep; trivial. now apply keep_card_true.
  - apply retained_drop; trivial. now apply keep_card_false.
Qed.

Lemma retained_unique (lines cards cards' : list str) :
  retained lines cards -> retained lines cards' -> cards = cards'.
Proof.
  intros H. revert cards'.
  induction H; intros cards' H'; inversion H'; subst; trivial;
    try contradiction; auto.
  f_equal. auto.
Qed.

Lemma retained_all_excluded (lines cards : list str) :
  retained lines cards -> Forall excluded lines -> cards = [].
Proof.
  induction 1; intros HF; trivial; inversion HF; subst; auto.
  contradiction.
Qed.

Lemma load_flashcards_ok (path text : str) (w : world) :
  fs path = ReadOk text ->
  load_flashcards fs path w
  = (Ret true, set_flashcards (filter keep_card (splitlines text)) w).
Proof. unfold load_flashcards. now intros ->. Qed.

Lemma load_flashcards_oserror (path msg : str) (w : world) :
  fs path = ReadRaises (OSError msg) ->
  load_flashcards fs path w = (Ret false, print msg w).
Proof. unfold load_flashcards. now intros ->. Qed.

End Loader.

Section LoaderClaims.

Variable fs : str -> read_result.

(** C10.  When the file cannot be opened, [load_flashcards] returns
    False and the global deck (and the stop flag) is what it was
    before the call. *)
Theorem load_failure_keeps_deck (path msg : str) (w : world) :
  fs path = ReadRaises (OSError msg) ->
  exists w',
    load_flashcards fs path w = (Ret false, w')
    /\ flashcards w' = flashcards w
    /\ stop_flashcards w' = stop_flashcards w.
Proof.
  intros H. exists (print msg w).
  split; [now apply load_flashcards_oserror|]. now split.
Qed.

End LoaderClaims.



(** The deck left for a file of a line holding a space and a line
    whose [#] follows a space. *)
Example exclusion_example :
  flashcards
    (snd (load_flashcards
            (fun _ => ReadOk (lit " " ++ [LF] ++ lit " # note" ++ [LF]))
            (lit "flashcards.txt") initial_world))
  = [lit " "; lit " # note"].
Proof. reflexivity. Qed.

(** The file of the spec's example. *)
Example load_flashcards_example :
  load_flashcards
    (fun _ => ReadOk
       (file_text [(lit "What is 2+2", EolLF); (lit "# comment", EolLF);
                   (lit "Name a primary color", EolLF); ([], EolLF)] []))
    (lit "flashcards.txt") initial_world
  = (Ret true,
     World [lit "What is 2+2"; lit "Name a primary color"] false []).
Proof. reflexivity. Qed.

Lemma load_failure_keeps_deck_witness :
  let fs := fun _ : str => ReadRaises (OSError (lit "[Errno 2] No such file")) in
  let w := World [lit "old card"] false [] in
  fs (lit "missing.txt") = ReadRaises (OSError (lit "[Errno 2] No such file"))
  /\ exists w',
      load_flashcards fs (lit "missing.txt") w = (Ret false, w')
      /\ flashcards w' = flashcards w
      /\ stop_flashcards w' = stop_flashcards w.
Proof.
  intros fs w. split; [reflexivity|].
  apply (load_failure_keeps_deck fs (lit "missing.txt")
           (lit "[Errno 2] No such file") w).
  reflexivity.
Defined.

(** ** The display loop *)

Ltac break_match :=
  repeat match goal with
    | |- context [if ?b then _ else _] => destruct b eqn:?
    | |- context [match ?x with _ => _ end] => destruct x eqn:?
    end.

Section Loop.

Variable wait : value.
Variable e : env.

Lemma run_S (n t : nat) (st : loop_state) :
  run wait e (S n) t st
  = step wait (rng e) (deliver (keys e (t + n)) (run wait e n t st)).
Proof.
  revert t st. induction n as [|n IH]; intros t st.
  - simpl. now rewrite Nat.add_0_r.
  - change (run wait e (S (S n)) t st)
      with (run wait e (S n) (S t) (step wait (rng e) (deliver (keys e t) st))).
    rewrite IH. simpl. now rewrite Nat.add_succ_r.
Qed.

Lemma run_add (n m t : nat) (st : loop_state) :
  run wait e (n + m) t st = run wait e m (t + n) (run wait e n t st).
Proof.
  revert t st. induction n as [|n IH]; intros t st; simpl.
  - now rewrite Nat.add_0_r.
  - rewrite IH. now rewrite Nat.add_succ_r.
Qed.

Lemma deliver_pc (b : bool) (st : loop_state) :
  at_pc (deliver b st) = at_pc st.
Proof. now destruct b. Qed.

Lemma deliver_stdout (b : bool) (st : loop_state) :
  stdout (globals (deliver b st)) = stdout (globals st).
Proof. now destruct b. Qed.

Lemma deliver_deck (b : bool) (st : loop_state) :
  flashcards (globals (deliver b st)) = flashcards (globals st).
Proof. now destruct b. Qed.

Lemma deliver_stop (b : bool) (st : loop_state) :
  stop_flashcards (globals (deliver b st))
  = b || stop_flashcards (globals st).
Proof. now destruct b. Qed.

Lemma deliver_idem (b : bool) (st : loop_state) :
  deliver b (deliver b st) = deliver b st.
Proof. now destruct b. Qed.

Lemma run_deliver (n t : nat) (st : loop_state) :
  run wait e (S n) t (deliver (keys e t) st) = run wait e (S n) t st.
Proof. simpl. now rewrite deliver_idem. Qed.

Lemma step_deck (st : loop_state) :
  flashcards (globals (step wait (rng e) st)) = flashcards (globals st).
Proof. destruct st as [p c l w d s]; destruct p; simpl; break_match; trivial. Qed.

Lemma step_stop (st : loop_state) :
  stop_flashcards (globals (step wait (rng e) st))
  = stop_flashcards (globals st).
Proof. destruct st as [p c l w d s]; destruct p; simpl; break_match; trivial. Qed.

Lemma run_stop (n t : nat) (st : loop_state) :
  stop_flashcards (globals st) = true ->
  stop_flashcards (globals (run wait e n t st)) = true.
Proof.
  revert t st. induction n as [|n IH]; intros t st H; simpl; trivial.
  apply IH. rewrite step_stop, deliver_stop, H. apply orb_true_r.
Qed.

(** Once the function has returned or raised nothing changes but,
    possibly, the flag. *)
Lemma ended_stable (n t : nat) (st : loop_state) :
  (at_pc st = Returned \/ exists x, at_pc st = Raised x) ->
  at_pc (run wait e n t st) = at_pc st
  /\ stdout (globals (run wait e n t st)) = stdout (globals st)
  /\ slept (run wait e n t st) = slept st
  /\ draws (run wait e n t st) = draws st.
Proof.
  revert t st. induction n as [|n IH]; intros t st H; simpl; auto.
  set (st1 := step wait (rng e) (deliver (keys e t) st)).
  assert (H1 : at_pc st1 = at_pc st
               /\ stdout (globals st1) = stdout (globals st)
               /\ slept st1 = slept st /\ draws st1 = draws st).
  { subst st1. destruct st as [p c l w d s]. simpl in H.
    destruct H as [->|[x ->]]; destruct (keys e t); simpl; auto. }
  destruct H1 as (Hp & Ho & Hs & Hd).
  destruct (IH (S t) st1) as (Hp' & Ho' & Hs' & Hd').
  { rewrite Hp. exact H. }
  repeat split; congruence.
Qed.

(** The loop test of line 92 with the flag set. *)
Lemma test_with_flag (t : nat) (st : loop_state) :
  at_pc st = L92 ->
  stop_flashcards (globals st) = true ->
  forall m,
    at_pc (run wait e (S m) t st) = Returned
    /\ stdout (globals (run wait e (S m) t st)) = stdout (globals st)
    /\ slept (run wait e (S m) t st) = slept st.
Proof.
  intros Hp Hs m.
  change (run wait e (S m) t st)
    with (run wait e m (S t) (step wait (rng e) (deliver (keys e t) st))).
  set (st1 := step wait (rng e) (deliver (keys e t) st)).
  assert (H1 : at_pc st1 = Returned
               /\ stdout (globals st1) = stdout (globals st)
               /\ slept st1 = slept st).
  { subst st1. destruct st as [p c l w d s]. simpl in *. subst p.
    destruct (keys e t); simpl; [auto|]. rewrite Hs. auto. }
  destruct H1 as (Hp1 & Ho1 & Hs1).
  destruct (ended_stable m (S t) st1) as (Hp' & Ho' & Hs' & _); [now left|].
  repeat split; congruence.
Qed.

Lemma run_deck (n t : nat) (st : loop_state) :
  flashcards (globals (run wait e n t st)) = flashcards (globals st).
Proof.
  revert t st. induction n as [|n IH]; intros t st; simpl; trivial.
  now rewrite IH, step_deck, deliver_deck.
Qed.

(** C8.  The display loop never assigns the deck: after any number of
    statements, whatever the draws and the key presses, the global
    list holds the same cards in the same order as when the loop was
    entered. *)
Theorem show_flashcards_keeps_deck (n : nat) (w : world) :
  flashcards (globals (show_flashcards wait e n w)) = flashcards w.
Proof.
  unfold show_flashcards.
  change (flashcards w) with (flashcards (globals (loop_init w))).
  apply run_deck.
Qed.

End Loop.

Section LoopClaims.

Variable wait : value.
Variable e : env.

Lemma last_shown_snoc (shown : list str) (c : str) :
  last_shown (shown ++ [c]) = Some c.
Proof. unfold last_shown. now rewrite rev_app_distr. Qed.

Lemma last_shown_cons (a b : str) (rest : list str) :
  last_shown (a :: b :: rest) = last_shown (b :: rest).
Proof.
  unfold last_shown. simpl. now destruct (rev rest).
Qed.

Lemma no_repeat_snoc (shown : list str) (c : str) :
  no_repeat shown ->
  same_card c (last_shown shown) = false ->
  no_repeat (shown ++ [c]).
Proof.
  induction shown as [|a shown IH]; intros Hn Hc; [exact I|].
  destruct shown as [|b rest].
  - simpl in *. split; trivial.
    apply str_eqb_neq in Hc. congruence.
  - destruct Hn as [Hab Hn]. split; trivial.
    apply IH; trivial. now rewrite <- (last_shown_cons a).
Qed.

Lemma random_choice_in (k : nat) (deck : list str) (c : str) :
  random_choice k deck = Ret c -> In c deck.
Proof.
  destruct deck as [|d deck]; [discriminate|].
  unfold random_choice. intros H.
  assert (Hc : c = nth (k mod List.length (d :: deck)) (d :: deck) d)
    by congruence.
  rewrite Hc. apply nth_In. apply Nat.mod_upper_bound. discriminate.
Qed.

Lemma loop_inv_step (out0 deck : list str) (st : loop_state)
  (shown : list str) :
  loop_inv out0 deck st shown ->
  exists shown', loop_inv out0 deck (step wait (rng e) st) shown'.
Proof.
  destruct st as [p c l w d s]. unfold loop_inv. simpl.
  intros (Hout & Hdeck & Hnr & Hin & Hpc).
  destruct p; simpl.
  - exists shown. destruct (stop_flashcards w); simpl; auto.
  - exists shown.
    destruct (random_choice (rng e d) (flashcards w)) as [c'|x] eqn:E; simpl;
      repeat split; auto.
    rewrite <- Hdeck. now apply (random_choice_in (rng e d)).
  - exists shown. destruct Hpc as [Hl Hc].
    destruct (same_card c l) eqn:E; simpl; repeat split; auto.
  - exists shown. destruct Hpc as [Hl Hc].
    destruct (random_choice (rng e d) (flashcards w)) as [c'|x] eqn:E; simpl;
      repeat split; auto.
    rewrite <- Hdeck. now apply (random_choice_in (rng e d)).
  - exists (shown ++ [c]). destruct Hpc as (Hl & Hc & Hsame).
    repeat split; auto.
    + now rewrite Hout, app_assoc.
    + apply no_repeat_snoc; trivial. now rewrite <- Hl.
    + apply Forall_app. split; auto.
    + apply last_shown_snoc.
  - exists shown. repeat split; auto.
  - exists shown. destruct (time_sleep wait); simpl; auto.
  - exists shown. auto.
  - exists shown. auto.
Qed.

Lemma loop_inv_deliver (out0 deck : list str) (st : loop_state)
  (shown : list str) (b : bool) :
  loop_inv out0 deck st shown -> loop_inv out0 deck (deliver b st) shown.
Proof. now destruct b. Qed.

Lemma loop_inv_run (out0 deck : list str) (n t : nat) (st : loop_state)
  (shown : list str) :
  loop_inv out0 deck st shown ->
  exists shown', loop_inv out0 deck (run wait e n t st) shown'.
Proof.
  revert t st shown. induction n as [|n IH]; intros t st shown H; simpl.
  - now exists shown.
  - apply loop_inv_deliver with (b := keys e t) in H.
    destruct (loop_inv_step _ _ _ _ H) as [shown1 H1]. apply (IH _ _ _ H1).
Qed.

(** C6.  With a deck of at least two cards, after any number of
    statements of the display loop, whatever the draws and the key
    presses, the cards printed so far are cards of the deck and none
    equals the one printed just before it. *)
Theorem no_immediate_repeat (n : nat) (w : world) :
  2 <= List.length (flashcards w) ->
  exists shown,
    stdout (globals (show_flashcards wait e n w)) = stdout w ++ shown
    /\ no_repeat shown
    /\ Forall (fun c => In c (flashcards w)) shown.
Proof.
  intros _. unfold show_flashcards.
  destruct (loop_inv_run (stdout w) (flashcards w) n 0 (loop_init w) [])
    as (shown & Hout & _ & Hnr & Hin & _).
  - unfold loop_inv. simpl. rewrite app_nil_r. repeat split; auto.
  - now exists shown.
Qed.

(** C7.  With a wait that [time.sleep] accepts and the stop flag set
    (earlier, or by a hotkey pressed now): from the call of
    [time.sleep] the loop returns right after that one sleep, and
    from any later loop test it returns at once; in both cases
    without an exception, and nothing is printed from then on. *)
Theorem stop_flag_ends_loop (t : nat) (st : loop_state) :
  time_sleep wait = Ret tt ->
  stop_flashcards (globals st) = true \/ keys e t = true ->
  (at_pc st = L98 ->
   forall m,
     at_pc (run wait e (2 + m) t st) = Returned
     /\ stdout (globals (run wait e (2 + m) t st)) = stdout (globals st)
     /\ slept (run wait e (2 + m) t st) = S (slept st))
  /\ (forall n,
        at_pc (run wait e n t st) = L92 ->
        forall m,
          at_pc (run wait e (n + S m) t st) = Returned
          /\ stdout (globals (run wait e (n + S m) t st))
             = stdout (globals (run wait e n t st))
          /\ slept (run wait e (n + S m) t st)
             = slept (run wait e n t st)).
Proof.
  intros Hwait Hflag.
  assert (Hstop : stop_flashcards (globals (deliver (keys e t) st)) = true).
  { rewrite deliver_stop. destruct Hflag as [-> | ->]; auto using orb_true_r. }
  split.
  - intros Hp m.
    change (run wait e (2 + m) t st)
      with (run wait e (S m) (S t) (step wait (rng e) (deliver (keys e t) st))).
    set (st1 := step wait (rng e) (deliver (keys e t) st)).
    assert (H1 : at_pc st1 = L92 /\ stop_flashcards (globals st1) = true
                 /\ stdout (globals st1) = stdout (globals st)
                 /\ slept st1 = S (slept st)).
    { subst st1. split; [|split; [now rewrite step_stop|]].
      - destruct st as [p c l w d s]. simpl in Hp. subst p.
        destruct (keys e t); simpl; now rewrite Hwait.
      - destruct st as [p c l w d s]. simpl in Hp. subst p.
        destruct (keys e t); simpl; now rewrite Hwait. }
    destruct H1 as (Hp1 & Hs1 & Ho1 & Hsl1).
    destruct (test_with_flag wait e (S t) st1 Hp1 Hs1 m) as (Ha & Hb & Hc).
    repeat split; congruence.
  - intros n Hp m. rewrite run_add.
    destruct n as [|n].
    + simpl in Hp. rewrite Nat.add_0_r.
      change (run wait e 0 t st) with st.
      rewrite <- run_deliver.
      rewrite <- (deliver_stdout (keys e t) st).
      replace (slept st) with (slept (deliver (keys e t) st))
        by (now destruct (keys e t)).
      apply test_with_flag; trivial. now rewrite deliver_pc.
    + apply test_with_flag; trivial.
      rewrite <- run_deliver. simpl. apply run_stop.
      now rewrite step_stop, deliver_idem.
Qed.

End LoopClaims.

Section HangAndCrash.

Variable wait : value.
Variable e : env.

Lemma random_choice_single (k : nat) (c : str) :
  random_choice k [c] = Ret c.
Proof. unfold random_choice. simpl List.length. now rewrite Nat.mod_1_r. Qed.

(** With one card in the deck that is also the last card shown, the
    inner loop of lines 94-95 is never left. *)
Lemma rechoose_never_ends (c : str) (n t : nat) (st : loop_state) :
  flashcards (globals st) = [c] ->
  last_card st = Some c ->
  (at_pc st = L94 /\ card st = c) \/ at_pc st = L95 ->
  (at_pc (run wait e n t st) = L94 \/ at_pc (run wait e n t st) = L95)
  /\ stdout (globals (run wait e n t st)) = stdout (globals st)
  /\ slept (run wait e n t st) = slept st.
Proof.
  revert t st. induction n as [|n IH]; intros t st Hdeck Hlast Hpc.
  - simpl. intuition.
  - simpl. set (st1 := step wait (rng e) (deliver (keys e t) st)).
    assert (H1 : flashcards (globals st1) = [c] /\ last_card st1 = Some c
                 /\ ((at_pc st1 = L94 /\ card st1 = c) \/ at_pc st1 = L95)
                 /\ stdout (globals st1) = stdout (globals st)
                 /\ slept st1 = slept st).
    { subst st1. destruct st as [p c0 l w d s]. simpl in *. subst l.
      destruct Hpc as [[-> ->]| ->]; destruct (keys e t); simpl;
        rewrite ?str_eqb_refl, ?Hdeck, ?random_choice_single; simpl; auto 10. }
    destruct H1 as (Hd1 & Hl1 & Hp1 & Ho1 & Hs1).
    destruct (IH (S t) st1 Hd1 Hl1 Hp1) as (Ha & Hb & Hc).
    repeat split; congruence.
Qed.

(** C1.  With a deck of one card, a wait that [time.sleep] accepts and
    no hotkey pressed before the second loop test, the loop prints the
    card once, sleeps once, and from its eighth statement on stays in
    the re-choose loop of lines 94-95 for ever: nothing more is
    printed and no later key press ends it. *)
Theorem one_card_deck_hangs (c : str) (out0 : list str) (n : nat) :
  time_sleep wait = Ret tt ->
  (forall t, t <= 6 -> keys e t = false) ->
  let st := show_flashcards wait e (8 + n) (World [c] false out0) in
  (at_pc st = L94 \/ at_pc st = L95)
  /\ stdout (globals st) = out0 ++ [c]
  /\ slept st = 1.
Proof.
  intros Hwait Hkeys st. subst st. unfold show_flashcards.
  rewrite run_add.
  set (st8 := run wait e 8 0 (loop_init (World [c] false out0))).
  assert (H8 : flashcards (globals st8) = [c] /\ last_card st8 = Some c
               /\ at_pc st8 = L94 /\ card st8 = c
               /\ stdout (globals st8) = out0 ++ [c] /\ slept st8 = 1).
  { subst st8. unfold loop_init. cbn [run].
    rewrite (Hkeys 0), (Hkeys 1), (Hkeys 2), (Hkeys 3), (Hkeys 4),
      (Hkeys 5), (Hkeys 6) by lia.
    repeat progress
      (cbn [step deliver same_card at_pc card last_card globals draws slept
            print stop_flashcards flashcards stdout];
       rewrite ?random_choice_single, ?Hwait).
    destruct (keys e 7); cbn; rewrite ?random_choice_single; cbn; auto 10. }
  destruct H8 as (Hd & Hl & Hp & Hc & Ho & Hs).
  destruct (rechoose_never_ends c n (0 + 8) st8 Hd Hl (or_introl (conj Hp Hc)))
    as (Ha & Hb & Hcc).
  repeat split; congruence.
Qed.

End HangAndCrash.

(** ** main *)

Ltac loop_steps :=
  repeat progress
    (cbn [step deliver same_card at_pc card last_card globals draws slept
          print stop_flashcards flashcards stdout set_flashcards
          random_choice time_sleep quit_flashcards]).

Section Main.

Variable e : env.

Lemma main_loaded (argv : list str) (args : namespace) (text : str) (n : nat) :
  parse_args argv default_namespace = Some (Ret args) ->
  fs e (ns_flashcards args) = ReadOk text ->
  main e argv n
  = Some (finish (show_flashcards (ns_wait args) e n
            (set_flashcards (filter keep_card (splitlines text))
               after_splash))).
Proof.
  intros Hparse Hread. unfold main.
  change (splash initial_world) with (Ret tt, after_splash).
  cbv beta iota. rewrite Hparse. unfold load_or_exit, bind.
  now rewrite (load_flashcards_ok _ _ _ _ Hread).
Qed.

Lemma main_not_loaded (argv : list str) (args : namespace) (msg : str)
  (n : nat) :
  parse_args argv default_namespace = Some (Ret args) ->
  fs e (ns_flashcards args) = ReadRaises (OSError msg) ->
  main e argv n
  = Some (Ended (Raise (SystemExit 1)) (print msg after_splash)).
Proof.
  intros Hparse Hread. unfold main.
  change (splash initial_world) with (Ret tt, after_splash).
  cbv beta iota. rewrite Hparse. unfold load_or_exit, bind.
  now rewrite (load_flashcards_oserror _ _ _ _ Hread).
Qed.

Lemma finish_ended (st : loop_state) (r : res unit) :
  at_pc st = match r with Ret _ => Returned | Raise x => Raised x end ->
  finish st = Ended (match r with Ret _ => Ret tt | Raise x => Raise x end)
                (globals st).
Proof. unfold finish. intros ->. now destruct r. Qed.

(** C2, as the code has it.  A readable file with no usable line is
    not rejected: [load_flashcards] returns True with an empty deck and
    [main] enters [show_flashcards].  The loop prints no card and does
    not hang: it returns if the stop flag is set at the first loop
    test, and otherwise the first [random.choice] raises IndexError,
    which ends the process. *)
Theorem empty_deck_reaches_loop (argv : list str) (args : namespace)
  (text : str) :
  parse_args argv default_namespace = Some (Ret args) ->
  fs e (ns_flashcards args) = ReadOk text ->
  Forall excluded (splitlines text) ->
  load_flashcards (fs e) (ns_flashcards args) after_splash
  = (Ret true, set_flashcards [] after_splash)
  /\ main e argv 0
     = Some (Showing (loop_init (set_flashcards [] after_splash)))
  /\ forall n,
      exists w,
        main e argv (2 + n)
        = Some (Ended (if keys e 0 then Ret tt else Raise IndexError) w)
        /\ stdout w = stdout after_splash
        /\ flashcards w = [].
Proof.
  intros Hparse Hread Hexcl.
  assert (Hdeck : filter keep_card (splitlines text) = [])
    by (apply (retained_all_excluded (splitlines text));
        [apply filter_retained|trivial]).
  split; [|split].
  - now rewrite (load_flashcards_ok _ _ _ _ Hread), Hdeck.
  - now rewrite (main_loaded argv args text 0 Hparse Hread), Hdeck.
  - intros n. rewrite (main_loaded argv args text _ Hparse Hread), Hdeck.
    set (w0 := set_flashcards [] after_splash).
    set (st := show_flashcards (ns_wait args) e (2 + n) w0).
    assert (Hd : flashcards (globals st) = [])
      by (subst st; unfold show_flashcards; now rewrite run_deck).
    assert (H : at_pc st = (if keys e 0 then Returned else Raised IndexError)
                /\ stdout (globals st) = stdout after_splash).
    { subst st. unfold show_flashcards. rewrite run_add.
      set (st2 := run (ns_wait args) e 2 0 (loop_init w0)).
      assert (H2 : at_pc st2 = (if keys e 0 then Returned else Raised IndexError)
                   /\ stdout (globals st2) = stdout after_splash).
      { subst st2 w0. unfold loop_init, after_splash. cbn [run].
        destruct (keys e 0), (keys e 1); split; reflexivity. }
      destruct H2 as [Hp2 Ho2].
      destruct (ended_stable (ns_wait args) e n (0 + 2) st2)
        as (Hp & Ho & _).
      { rewrite Hp2. destruct (keys e 0); eauto. }
      split; congruence. }
    destruct H as [Hp Ho]. exists (globals st).
    split; [|now split].
    f_equal. destruct (keys e 0).
    + now apply (finish_ended st (Ret tt)).
    + now apply (finish_ended st (Raise IndexError)).
Qed.

(** An option value is stored as the token that was typed. *)
Lemma parse_wait_value (ns : namespace) (v : str) :
  plain v = true ->
  parse_args [lit "-w"; v] ns
  = Some (Ret (Namespace (ns_flashcards ns) (VStr v))).
Proof.
  intros H.
  change (parse_args [lit "-w"; v] ns)
    with (if plain v
          then parse_args [] (Namespace (ns_flashcards ns) (VStr v))
          else None).
  now rewrite H.
Qed.

(** A str as the wait: the first call of [time.sleep] raises. *)
Lemma str_wait_raises (v : str) (w : world) (c : str) (cards : list str)
  (n : nat) :
  flashcards w = c :: cards ->
  stop_flashcards w = false ->
  keys e 0 = false ->
  at_pc (show_flashcards (VStr v) e (6 + n) w) = Raised TypeError
  /\ stdout (globals (show_flashcards (VStr v) e (6 + n) w))
     = stdout w
         ++ [nth (rng e 0 mod List.length (c :: cards)) (c :: cards) c].
Proof.
  intros Hdeck Hstop Hkey. unfold show_flashcards. rewrite run_add.
  set (st6 := run (VStr v) e 6 0 (loop_init w)).
  assert (H6 : at_pc st6 = Raised TypeError
               /\ stdout (globals st6)
                  = stdout w
                      ++ [nth (rng e 0 mod List.length (c :: cards))
                            (c :: cards) c]).
  { subst st6. destruct w as [deck stop out]. simpl in Hdeck, Hstop.
    subst deck stop. unfold loop_init. cbn [run]. rewrite Hkey.
    destruct (keys e 1), (keys e 2), (keys e 3), (keys e 4), (keys e 5);
      loop_steps; split; reflexivity. }
  destruct H6 as [Hp6 Ho6].
  destruct (ended_stable (VStr v) e n (0 + 6) st6) as (Hp & Ho & _);
    [rewrite Hp6; eauto|].
  split; congruence.
Qed.

(** C5.  The value of [--wait] is taken as typed: any token [v] is
    accepted by the parser and reaches [time.sleep] as a str, which is
    a TypeError.  With a loadable deck and the stop flag unset at the
    first loop test, the process prints one card and ends by that
    uncaught exception, status 1; this holds for 1.5 as for abc. *)
Theorem wait_value_is_a_str (v : str) (text : str) (c : str)
  (cards : list str) :
  plain v = true ->
  fs e (lit "flashcards.txt") = ReadOk text ->
  filter keep_card (splitlines text) = c :: cards ->
  keys e 0 = false ->
  parse_args [lit "-w"; v] default_namespace
  = Some (Ret (Namespace (lit "flashcards.txt") (VStr v)))
  /\ time_sleep (VStr v) = Raise TypeError
  /\ forall n,
      exists w c1,
        main e [lit "-w"; v] (6 + n) = Some (Ended (Raise TypeError) w)
        /\ exit_status (Raise TypeError) = 1%Z
        /\ In c1 (c :: cards)
        /\ stdout w = stdout after_splash ++ [c1].
Proof.
  intros Hplain Hread Hdeck Hkey.
  assert (Hparse : parse_args [lit "-w"; v] default_namespace
                   = Some (Ret (Namespace (lit "flashcards.txt") (VStr v))))
    by (now apply (parse_wait_value default_namespace)).
  split; [exact Hparse|]. split; [reflexivity|].
  intros n. rewrite (main_loaded _ _ text _ Hparse Hread), Hdeck.
  cbn [ns_wait].
  destruct (str_wait_raises v (set_flashcards (c :: cards) after_splash)
              c cards n eq_refl eq_refl Hkey) as [Hp Ho].
  set (st := show_flashcards (VStr v) e (6 + n)
               (set_flashcards (c :: cards) after_splash)) in *.
  exists (globals st),
    (nth (rng e 0 mod List.length (c :: cards)) (c :: cards) c).
  split; [f_equal; now apply (finish_ended st (Raise TypeError))|].
  split; [reflexivity|]. split; [|exact Ho].
  apply nth_In. apply Nat.mod_upper_bound. discriminate.
Qed.

End Main.

(** ** Runs on concrete inputs *)

(** C2, as the spec states it, fails: with a file holding a comment
    and a blank line the loader reports success, the process has not
    ended when the display loop is reached, the loop body is entered
    and the choice from the empty deck is attempted. *)
Lemma empty_deck_not_rejected :
  let e := one_file (file_text [(lit "# only a comment", EolLF); ([], EolLF)] [])
             (fun _ => 0) (fun _ => false) in
  load_flashcards (fs e) (lit "flashcards.txt") after_splash
  = (Ret true, set_flashcards [] after_splash)
  /\ ~ (exists r w, main e [] 0 = Some (Ended r w))
  /\ main e [] 1
     = Some (Showing (LoopState L93 [] None (set_flashcards [] after_splash) 0 0))
  /\ main e [] 2
     = Some (Ended (Raise IndexError) (set_flashcards [] after_splash)).
Proof.
  intros e. split; [reflexivity|]. split; [|split; reflexivity].
  intros (r & w & H). vm_compute in H. discriminate H.
Qed.

Lemma empty_deck_reaches_loop_witness :
  let text := file_text [(lit "# only a comment", EolLF); ([], EolLF)] [] in
  let e := one_file text (fun _ => 0) (fun _ => false) in
  parse_args [] default_namespace = Some (Ret default_namespace)
  /\ fs e (ns_flashcards default_namespace) = ReadOk text
  /\ Forall excluded (splitlines text)
  /\ load_flashcards (fs e) (ns_flashcards default_namespace) after_splash
     = (Ret true, set_flashcards [] after_splash)
  /\ main e [] 0
     = Some (Showing (loop_init (set_flashcards [] after_splash)))
  /\ forall n,
      exists w,
        main e [] (2 + n)
        = Some (Ended (if keys e 0 then Ret tt else Raise IndexError) w)
        /\ stdout w = stdout after_splash
        /\ flashcards w = [].
Proof.
  intros text e.
  assert (Hexcl : Forall excluded (splitlines text)).
  { change (splitlines text) with [lit "# only a comment"; []].
    constructor; [right; eexists; reflexivity|].
    constructor; [left; reflexivity|constructor]. }
  split; [reflexivity|]. split; [reflexivity|]. split; [exact Hexcl|].
  apply (empty_deck_reaches_loop e [] default_namespace text);
    [reflexivity|reflexivity|exact Hexcl].
Defined.

Lemma one_card_deck_hangs_witness :
  let e := one_file [] (fun k => k) (fun t => 7 <=? t) in
  time_sleep (VInt 5) = Ret tt
  /\ (forall t, t <= 6 -> keys e t = false)
  /\ (at_pc (show_flashcards (VInt 5) e (8 + 20) (World [lit "Q1"] false []))
      = L94
      \/ at_pc (show_flashcards (VInt 5) e (8 + 20) (World [lit "Q1"] false []))
         = L95)
  /\ stdout (globals (show_flashcards (VInt 5) e (8 + 20)
                        (World [lit "Q1"] false [])))
     = [] ++ [lit "Q1"]
  /\ slept (show_flashcards (VInt 5) e (8 + 20) (World [lit "Q1"] false []))
     = 1.
Proof.
  intros e.
  assert (Hkeys : forall t, t <= 6 -> keys e t = false)
    by (intros t Ht; unfold e, one_file, keys; apply Nat.leb_gt; lia).
  split; [reflexivity|]. split; [exact Hkeys|].
  apply (one_card_deck_hangs (VInt 5) e (lit "Q1") [] 20);
    [reflexivity|exact Hkeys].
Defined.

Lemma wait_value_is_a_str_witness :
  let text := file_text [(lit "Q1", EolLF); (lit "Q2", EolLF)] [] in
  let e := one_file text (fun k => k) (fun _ => false) in
  let v := lit "1.5" in
  plain v = true
  /\ fs e (lit "flashcards.txt") = ReadOk text
  /\ filter keep_card (splitlines text) = lit "Q1" :: [lit "Q2"]
  /\ keys e 0 = false
  /\ parse_args [lit "-w"; v] default_namespace
     = Some (Ret (Namespace (lit "flashcards.txt") (VStr v)))
  /\ time_sleep (VStr v) = Raise TypeError
  /\ forall n,
      exists w c1,
        main e [lit "-w"; v] (6 + n) = Some (Ended (Raise TypeError) w)
        /\ exit_status (Raise TypeError) = 1%Z
        /\ In c1 (lit "Q1" :: [lit "Q2"])
        /\ stdout w = stdout after_splash ++ [c1].
Proof.
  intros text e v.
  split; [reflexivity|]. split; [reflexivity|]. split; [reflexivity|].
  split; [reflexivity|].
  apply (wait_value_is_a_str e v text (lit "Q1") [lit "Q2"]); reflexivity.
Defined.

Lemma no_immediate_repeat_witness :
  let e := one_file [] (fun k => k) (fun _ => false) in
  let w := World [lit "A"; lit "B"] false [] in
  2 <= List.length (flashcards w)
  /\ exists shown,
      stdout (globals (show_flashcards (VInt 5) e 30 w)) = stdout w ++ shown
      /\ no_repeat shown
      /\ Forall (fun c => In c (flashcards w)) shown.
Proof.
  intros e w. split; [simpl; lia|].
  apply (no_immediate_repeat (VInt 5) e 30 w). simpl. lia.
Defined.

Lemma stop_flag_ends_loop_witness :
  let e := one_file [] (fun k => k) (fun t => t =? 5) in
  let st := LoopState L98 (lit "A") (Some (lit "A"))
              (World [lit "A"; lit "B"] false [lit "A"]) 1 0 in
  time_sleep (VInt 5) = Ret tt
  /\ (stop_flashcards (globals st) = true \/ keys e 5 = true)
  /\ (at_pc st = L98 ->
      forall m,
        at_pc (run (VInt 5) e (2 + m) 5 st) = Returned
        /\ stdout (globals (run (VInt 5) e (2 + m) 5 st)) = stdout (globals st)
        /\ slept (run (VInt 5) e (2 + m) 5 st) = S (slept st))
  /\ (forall n,
        at_pc (run (VInt 5) e n 5 st) = L92 ->
        forall m,
          at_pc (run (VInt 5) e (n + S m) 5 st) = Returned
          /\ stdout (globals (run (VInt 5) e (n + S m) 5 st))
             = stdout (globals (run (VInt 5) e n 5 st))
          /\ slept (run (VInt 5) e (n + S m) 5 st)
             = slept (run (VInt 5) e n 5 st)).
Proof.
  intros e st. split; [reflexivity|]. split; [right; reflexivity|].
  apply (stop_flag_ends_loop (VInt 5) e 5 st); [reflexivity|right; reflexivity].
Defined.

(** Thirty statements on a deck of two cards with the draws 0, 1, 2,
    ...: five cards are printed, alternating. *)
Example two_card_run :
  stdout (globals (show_flashcards (VInt 5)
                     (one_file [] (fun k => k) (fun _ => false)) 30
                     (World [lit "A"; lit "B"] false [])))
  = [lit "A"; lit "B"; lit "A"; lit "B"; lit "A"].
Proof. reflexivity. Qed.

(** A hotkey pressed during the second sleep: the process ends with
    status 0 after two cards. *)
Example stop_during_sleep :
  let e := one_file (file_text [(lit "A", EolLF); (lit "B", EolLF)] [])
             (fun k => k) (fun t => t =? 12) in
  let w := World [lit "A"; lit "B"] true
             (stdout after_splash ++ [lit "A"; lit "B"]) in
  main e [] 40 = Some (Ended (Ret tt) w)
  /\ exit_code (Ended (Ret tt) w) = Some 0%Z.
Proof. intros e w. split; vm_compute; reflexivity. Qed.

(** The documented call [-w 10], and a wait that is no number: both
    are accepted by the parser and end at the first sleep. *)
Example wait_10_and_abc :
  let e := one_file (file_text [(lit "A", EolLF); (lit "B", EolLF)] [])
             (fun k => k) (fun _ => false) in
  main e [lit "-w"; lit "10"] 6
  = Some (Ended (Raise TypeError) (print (lit "A")
            (set_flashcards [lit "A"; lit "B"] after_splash)))
  /\ main e [lit "--wait"; lit "abc"] 6
     = Some (Ended (Raise TypeError) (print (lit "A")
               (set_flashcards [lit "A"; lit "B"] after_splash))).
Proof. split; vm_compute; reflexivity. Qed.

(** A file of one card with the default wait: after any number of
    statements tried here the process is still in the loop, having
    printed the card once. *)
Example one_card_file_run :
  let e := one_file (file_text [(lit "Q1", EolLF)] [])
             (fun k => k) (fun _ => false) in
  match main e [] 200 with
  | Some (Showing st) =>
      stdout (globals st) = stdout after_splash ++ [lit "Q1"]
      /\ slept st = 1
  | _ => False
  end.
Proof. vm_compute. split; reflexivity. Qed.

(** * Further properties of the code *)

(** ** The loader on concatenated texts and duplicates *)

Section LoaderMore.

Variable fs : str -> read_result.

Lemma file_text_app (ls : list (str * eol)) (rest : str) :
  file_text ls [] ++ rest = file_text ls rest.
Proof.
  induction ls as [|[l t] ls IH]; simpl; trivial.
  now rewrite <- !app_assoc, IH.
Qed.

Lemma starts_with_LF_file_text (ls : list (str * eol)) (rest : str) :
  starts_with_LF (file_text ls []) = true ->
  starts_with_LF (file_text ls rest) = true.
Proof.
  destruct ls as [|[l t] ls]; simpl; [discriminate|].
  destruct l as [|c l]; simpl; trivial.
  now destruct t.
Qed.

Lemma lines_ok_nil (ls : list (str * eol)) (rest : str) :
  lines_ok ls rest = true -> lines_ok ls [] = true.
Proof.
  induction ls as [|[l t] ls IH]; simpl; trivial.
  intros H. apply andb_true_iff in H. destruct H as [H Hok].
  apply andb_true_iff in H. destruct H as [Hl Hcr].
  rewrite Hl, (IH Hok). simpl. rewrite andb_true_r.
  apply negb_true_iff. apply negb_true_iff in Hcr.
  destruct (is_EolCR t); trivial. simpl in *.
  destruct (starts_with_LF (file_text ls [])) eqn:E; trivial.
  apply (starts_with_LF_file_text ls rest) in E. congruence.
Qed.

(** Terminated lines come out one by one, whatever text follows. *)
Lemma splitlines_lines_then (ls : list (str * eol)) (rest : str) :
  lines_ok ls rest = true ->
  splitlines (file_text ls rest) = map fst ls ++ splitlines rest.
Proof.
  unfold splitlines.
  induction ls as [|[l t] ls IH]; simpl; trivial.
  intros H. apply andb_true_iff in H. destruct H as [H Hok].
  apply andb_true_iff in H. destruct H as [Hl Hcr].
  apply negb_true_iff in Hcr.
  rewrite (splitlines_from_line l Hl), (splitlines_from_eol _ _ _ Hcr).
  rewrite app_nil_r, rev_involutive. f_equal. now apply IH.
Qed.


(** X1.  Appending a text to a file that ends with a line terminator
    appends its cards: the deck loaded from the concatenation is the
    deck of the first part followed by the deck of the second, and the
    lines of the first part are the lines it was written with. *)
Theorem load_concatenated (path : str) (ls : list (str * eol)) (rest : str)
  (w : world) :
  fs path = ReadOk (file_text ls [] ++ rest) ->
  lines_ok ls rest = true ->
  load_flashcards fs path w
  = (Ret true,
     set_flashcards
       (filter keep_card (splitlines (file_text ls []))
        ++ filter keep_card (splitlines rest)) w)
  /\ splitlines (file_text ls []) = map fst ls
  /\ flashcards (snd (load_flashcards fs path w))
     = filter keep_card (splitlines (file_text ls []))
       ++ filter keep_card (splitlines rest).
Proof.
  intros Hread Hok.
  assert (Hfirst : splitlines (file_text ls []) = map fst ls).
  { rewrite (splitlines_lines_then ls [] (lines_ok_nil ls rest Hok)).
    apply app_nil_r. }
  assert (Hload : load_flashcards fs path w
                  = (Ret true,
                     set_flashcards
                       (filter keep_card (splitlines (file_text ls []))
                        ++ filter keep_card (splitlines rest)) w)).
  { rewrite (load_flashcards_ok fs path _ w Hread), file_text_app.
    rewrite (splitlines_lines_then ls rest Hok), filter_app.
    now rewrite Hfirst. }
  split; [exact Hload|]. split; [exact Hfirst|].
  now rewrite Hload.
Qed.


End LoaderMore.

Lemma load_concatenated_witness :
  let ls := [(lit "Q1", EolLF); (lit "# note", EolCRLF)] in
  let rest := lit "Q2" ++ [LF] ++ lit "Q1" in
  let fs := fun _ : str => ReadOk (file_text ls [] ++ rest) in
  fs (lit "cards.txt") = ReadOk (file_text ls [] ++ rest)
  /\ lines_ok ls rest = true
  /\ load_flashcards fs (lit "cards.txt") initial_world
     = (Ret true,
        set_flashcards
          (filter keep_card (splitlines (file_text ls []))
           ++ filter keep_card (splitlines rest)) initial_world)
  /\ splitlines (file_text ls []) = map fst ls
  /\ flashcards (snd (load_flashcards fs (lit "cards.txt") initial_world))
     = filter keep_card (splitlines (file_text ls []))
       ++ filter keep_card (splitlines rest).
Proof.
  intros ls rest fs. split; [reflexivity|]. split; [reflexivity|].
  apply (load_concatenated fs (lit "cards.txt") ls rest initial_world);
    reflexivity.
Defined.


(** ** More on the display loop *)

Ltac loop_steps_with H1 H2 :=
  repeat progress
    (cbn [step deliver at_pc card last_card globals draws slept print
          stop_flashcards flashcards stdout set_flashcards quit_flashcards];
     rewrite ?H1, ?H2).

Ltac loop_steps_open H :=
  repeat progress
    (cbn [step deliver at_pc card last_card globals draws slept print
          stop_flashcards flashcards stdout set_flashcards quit_flashcards
          random_choice same_card];
     rewrite ?H).

Section LoopMore.

Variable wait : value.
Variable e : env.

Lemma pressed_false (t n : nat) :
  pressed e t (S n) = false -> keys e t = false /\ pressed e (S t) n = false.
Proof. simpl. apply orb_false_iff. Qed.

(** X3.  Only a hotkey writes the stop flag: after any number of
    statements the flag is set exactly when it was set before or a
    hotkey was pressed meanwhile; the loop never sets it and nothing
    ever clears it. *)
Theorem stop_flag_only_by_hotkey (n t : nat) (st : loop_state) :
  stop_flashcards (globals (run wait e n t st))
  = stop_flashcards (globals st) || pressed e t n.
Proof.
  revert t st. induction n as [|n IH]; intros t st.
  - simpl. now rewrite orb_false_r.
  - change (run wait e (S n) t st)
      with (run wait e n (S t) (step wait (rng e) (deliver (keys e t) st))).
    rewrite IH, step_stop, deliver_stop. simpl pressed.
    now destruct (keys e t), (stop_flashcards (globals st)),
      (pressed e (S t) n).
Qed.

Lemma running_step (st : loop_state) :
  running (at_pc st) = true ->
  stop_flashcards (globals st) = false ->
  flashcards (globals st) <> [] ->
  time_sleep wait = Ret tt ->
  running (at_pc (step wait (rng e) st)) = true.
Proof.
  destruct st as [p c l [deck stop out] d s].
  cbn [at_pc globals stop_flashcards flashcards]. intros Hp Hs Hd Hw.
  subst stop. destruct p; try discriminate; loop_steps_with Hw Hw; trivial.
  - destruct deck; [contradiction|reflexivity].
  - now destruct (same_card c l).
  - destruct deck; [contradiction|reflexivity].
Qed.

Lemma running_run (n t : nat) (st : loop_state) :
  running (at_pc st) = true ->
  stop_flashcards (globals st) = false ->
  flashcards (globals st) <> [] ->
  time_sleep wait = Ret tt ->
  pressed e t n = false ->
  running (at_pc (run wait e n t st)) = true
  /\ stop_flashcards (globals (run wait e n t st)) = false.
Proof.
  revert t st. induction n as [|n IH]; intros t st Hp Hs Hd Hw Hk;
    [now split|].
  apply pressed_false in Hk. destruct Hk as [Hk0 Hk].
  change (run wait e (S n) t st)
    with (run wait e n (S t) (step wait (rng e) (deliver (keys e t) st))).
  rewrite Hk0. cbn [deliver]. apply IH; trivial.
  - now apply running_step.
  - now rewrite step_stop.
  - now rewrite step_deck.
Qed.

(** X4.  The loop does not end by itself: with a deck that is not
    empty, a wait that [time.sleep] accepts, the flag unset on entry
    and no hotkey pressed during the first [n] statements, the
    function has neither returned nor raised after them. *)
Theorem loop_runs_until_stopped (n : nat) (w : world) :
  flashcards w <> [] ->
  time_sleep wait = Ret tt ->
  stop_flashcards w = false ->
  pressed e 0 n = false ->
  at_pc (show_flashcards wait e n w) <> Returned
  /\ (forall x, at_pc (show_flashcards wait e n w) <> Raised x)
  /\ stop_flashcards (globals (show_flashcards wait e n w)) = false.
Proof.
  intros Hd Hw Hs Hk. unfold show_flashcards.
  destruct (running_run n 0 (loop_init w)) as [Hr Hstop]; trivial.
  split; [|split]; trivial.
  - intros H. now rewrite H in Hr.
  - intros x H. now rewrite H in Hr.
Qed.

End LoopMore.

Section Iteration.

Variable wait : value.
Variable e : env.

(** One draw at line 93 or 95. *)
Lemma draw_once (t : nat) (st : loop_state) (c : str) :
  at_pc st = L93 \/ at_pc st = L95 ->
  random_choice (rng e (draws st)) (flashcards (globals st)) = Ret c ->
  at_pc (run wait e 1 t st) = L94
  /\ card (run wait e 1 t st) = c
  /\ last_card (run wait e 1 t st) = last_card st
  /\ draws (run wait e 1 t st) = S (draws st)
  /\ stdout (globals (run wait e 1 t st)) = stdout (globals st)
  /\ slept (run wait e 1 t st) = slept st
  /\ flashcards (globals (run wait e 1 t st)) = flashcards (globals st).
Proof.
  destruct st as [p c0 l [deck stop out] d s].
  cbn [at_pc draws globals flashcards]. intros Hp Hc. cbn [run].
  destruct Hp as [-> | ->]; destruct (keys e t);
    loop_steps_with Hc Hc; repeat split.
Qed.

(** A draw that equals the last card is thrown away. *)
Lemma reject_once (t : nat) (st : loop_state) (c : str) :
  at_pc st = L93 \/ at_pc st = L95 ->
  random_choice (rng e (draws st)) (flashcards (globals st)) = Ret c ->
  same_card c (last_card st) = true ->
  at_pc (run wait e 2 t st) = L95
  /\ last_card (run wait e 2 t st) = last_card st
  /\ draws (run wait e 2 t st) = S (draws st)
  /\ stdout (globals (run wait e 2 t st)) = stdout (globals st)
  /\ slept (run wait e 2 t st) = slept st
  /\ flashcards (globals (run wait e 2 t st)) = flashcards (globals st).
Proof.
  destruct st as [p c0 l [deck stop out] d s].
  cbn [at_pc draws globals flashcards last_card]. intros Hp Hc Hsame.
  cbn [run].
  destruct Hp as [-> | ->];
    destruct (keys e t); loop_steps_with Hc Hsame;
    destruct (keys e (S t)); loop_steps_with Hc Hsame;
    repeat split.
Qed.

(** A card that differs from the last one is printed and slept on. *)
Lemma accept_and_sleep (t : nat) (st : loop_state) :
  time_sleep wait = Ret tt ->
  at_pc st = L94 ->
  same_card (card st) (last_card st) = false ->
  at_pc (run wait e 4 t st) = L92
  /\ stdout (globals (run wait e 4 t st)) = stdout (globals st) ++ [card st]
  /\ last_card (run wait e 4 t st) = Some (card st)
  /\ draws (run wait e 4 t st) = draws st
  /\ slept (run wait e 4 t st) = S (slept st)
  /\ flashcards (globals (run wait e 4 t st)) = flashcards (globals st).
Proof.
  destruct st as [p c l [deck stop out] d s].
  cbn [at_pc card last_card globals flashcards stdout draws slept].
  intros Hw -> Hsame. cbn [run].
  destruct (keys e t); loop_steps_with Hsame Hw;
    destruct (keys e (S t)); loop_steps_with Hsame Hw;
    destruct (keys e (S (S t))); loop_steps_with Hsame Hw;
    destruct (keys e (S (S (S t)))); loop_steps_with Hsame Hw;
    repeat split.
Qed.

Lemma rechoose_until_different (j : nat) :
  forall (t : nat) (st : loop_state) (picked : str),
    at_pc st = L93 \/ at_pc st = L95 ->
    (forall i, i < j ->
       exists c,
         random_choice (rng e (draws st + i)) (flashcards (globals st)) = Ret c
         /\ same_card c (last_card st) = true) ->
    random_choice (rng e (draws st + j)) (flashcards (globals st)) = Ret picked ->
    at_pc (run wait e (2 * j + 1) t st) = L94
    /\ card (run wait e (2 * j + 1) t st) = picked
    /\ last_card (run wait e (2 * j + 1) t st) = last_card st
    /\ draws (run wait e (2 * j + 1) t st) = draws st + j + 1
    /\ stdout (globals (run wait e (2 * j + 1) t st)) = stdout (globals st)
    /\ slept (run wait e (2 * j + 1) t st) = slept st
    /\ flashcards (globals (run wait e (2 * j + 1) t st))
       = flashcards (globals st).
Proof.
  induction j as [|j IH]; intros t st picked Hp Hrej Hpick.
  - rewrite Nat.add_0_r in Hpick.
    destruct (draw_once t st picked Hp Hpick) as (H1 & H2 & H3 & H4 & H5).
    change (2 * 0 + 1) with 1. repeat split; try tauto. lia.
  - destruct (Hrej 0) as (c0 & Hc0 & Hs0); [lia|].
    rewrite Nat.add_0_r in Hc0.
    destruct (reject_once t st c0 Hp Hc0 Hs0)
      as (Hp2 & Hl2 & Hd2 & Ho2 & Hs2 & Hf2).
    replace (2 * S j + 1) with (2 + (2 * j + 1)) by lia.
    rewrite run_add. set (st2 := run wait e 2 t st) in *.
    destruct (IH (t + 2) st2 picked) as (Ha & Hb & Hc & Hd & Ho & Hs & Hf).
    + now right.
    + intros i Hi. destruct (Hrej (S i)) as (c & Hc & Hsc); [lia|].
      exists c. rewrite Hd2, Hl2, Hf2.
      replace (S (draws st) + i) with (draws st + S i) by lia. now split.
    + rewrite Hd2, Hf2.
      now replace (S (draws st) + j) with (draws st + S j) by lia.
    + repeat split; try congruence. lia.
Qed.

(** X5.  One iteration of the loop body with rejection sampling: when
    the first [j] draws all equal the last card and the next draw
    [picked] differs from it, the body takes [2j + 5] statements,
    prints [picked] and nothing else, records it as the last card,
    uses [j + 1] draws and sleeps once, whatever keys are pressed
    meanwhile. *)
Theorem iteration_with_rejections (t : nat) (st : loop_state) (j : nat)
  (picked : str) :
  time_sleep wait = Ret tt ->
  at_pc st = L93 ->
  (forall i, i < j ->
     exists c,
       random_choice (rng e (draws st + i)) (flashcards (globals st)) = Ret c
       /\ same_card c (last_card st) = true) ->
  random_choice (rng e (draws st + j)) (flashcards (globals st)) = Ret picked ->
  same_card picked (last_card st) = false ->
  at_pc (run wait e (2 * j + 5) t st) = L92
  /\ stdout (globals (run wait e (2 * j + 5) t st))
     = stdout (globals st) ++ [picked]
  /\ last_card (run wait e (2 * j + 5) t st) = Some picked
  /\ draws (run wait e (2 * j + 5) t st) = draws st + j + 1
  /\ slept (run wait e (2 * j + 5) t st) = S (slept st).
Proof.
  intros Hw Hp Hrej Hpick Hdiff.
  destruct (rechoose_until_different j t st picked (or_introl Hp) Hrej Hpick)
    as (Ha & Hb & Hc & Hd & Ho & Hs & Hf).
  replace (2 * j + 5) with ((2 * j + 1) + 4) by lia.
  rewrite run_add. set (st1 := run wait e (2 * j + 1) t st) in *.
  destruct (accept_and_sleep (t + (2 * j + 1)) st1 Hw Ha)
    as (Ha' & Ho' & Hl' & Hd' & Hs' & _).
  { now rewrite Hb, Hc. }
  repeat split; congruence.
Qed.

Lemma paced_step (base : nat) (st : loop_state) :
  paced base st -> paced base (step wait (rng e) st).
Proof.
  destruct st as [p c l [deck stop out] d s]. unfold paced.
  cbn [at_pc globals stdout slept].
  destruct p; cbn [step]; intros H.
  - now destruct stop.
  - now destruct (random_choice (rng e d) (flashcards (World deck stop out)));
      [|left].
  - now destruct (same_card c l).
  - now destruct (random_choice (rng e d) (flashcards (World deck stop out)));
      [|left].
  - cbn [at_pc globals print stdout slept]. rewrite length_app. simpl. lia.
  - trivial.
  - destruct (time_sleep wait); cbn [at_pc globals stdout slept]; [lia|].
    now right.
  - trivial.
  - trivial.
Qed.

Lemma paced_run (base n t : nat) (st : loop_state) :
  paced base st -> paced base (run wait e n t st).
Proof.
  revert t st. induction n as [|n IH]; intros t st H; trivial.
  change (run wait e (S n) t st)
    with (run wait e n (S t) (step wait (rng e) (deliver (keys e t) st))).
  apply IH, paced_step. now destruct (keys e t).
Qed.

(** X6.  Cards and sleeps alternate: at every point of the loop the
    number of cards printed so far is the number of completed sleeps
    or one more, so two cards are never printed without a sleep
    between them. *)
Theorem one_sleep_per_card (n : nat) (w : world) :
  List.length (stdout w) + slept (show_flashcards wait e n w)
  <= List.length (stdout (globals (show_flashcards wait e n w)))
  <= List.length (stdout w) + S (slept (show_flashcards wait e n w)).
Proof.
  unfold show_flashcards.
  assert (H : paced (List.length (stdout w)) (run wait e n 0 (loop_init w))).
  { apply paced_run. unfold paced, loop_init. simpl. lia. }
  unfold paced in H. cbv zeta in H.
  destruct (at_pc (run wait e n 0 (loop_init w))); lia.
Qed.

End Iteration.

Section EqualCards.

Variable wait : value.
Variable e : env.

Lemma random_choice_all_equal (k : nat) (deck : list str) (c : str) :
  deck <> [] ->
  Forall (fun x => x = c) deck ->
  random_choice k deck = Ret c.
Proof.
  intros Hne Hall. destruct deck as [|d deck]; [contradiction|].
  unfold random_choice. f_equal.
  apply (proj1 (Forall_forall _ _) Hall).
  apply nth_In. apply Nat.mod_upper_bound. discriminate.
Qed.

Lemma rechoose_among_equals (c : str) (n t : nat) (st : loop_state) :
  flashcards (globals st) <> [] ->
  Forall (fun x => x = c) (flashcards (globals st)) ->
  last_card st = Some c ->
  (at_pc st = L94 /\ card st = c) \/ at_pc st = L95 ->
  (at_pc (run wait e n t st) = L94 \/ at_pc (run wait e n t st) = L95)
  /\ stdout (globals (run wait e n t st)) = stdout (globals st)
  /\ slept (run wait e n t st) = slept st.
Proof.
  revert t st. induction n as [|n IH]; intros t st Hne Hall Hlast Hpc.
  - simpl. intuition.
  - change (run wait e (S n) t st)
      with (run wait e n (S t) (step wait (rng e) (deliver (keys e t) st))).
    set (st1 := step wait (rng e) (deliver (keys e t) st)).
    assert (H1 : flashcards (globals st1) = flashcards (globals st)
                 /\ last_card st1 = Some c
                 /\ ((at_pc st1 = L94 /\ card st1 = c) \/ at_pc st1 = L95)
                 /\ stdout (globals st1) = stdout (globals st)
                 /\ slept st1 = slept st).
    { subst st1. destruct st as [p c0 l [deck stop out] d s].
      cbn [at_pc card last_card globals flashcards stdout slept] in *.
      subst l.
      pose proof (random_choice_all_equal (rng e d) deck c Hne Hall) as Hrc.
      pose proof (str_eqb_refl c) as Hcc.
      destruct Hpc as [[-> ->]| ->]; destruct (keys e t);
        loop_steps_with Hrc Hcc; cbn [same_card]; rewrite ?Hcc;
        auto 10. }
    destruct H1 as (Hd1 & Hl1 & Hp1 & Ho1 & Hs1).
    destruct (IH (S t) st1) as (Ha & Hb & Hc); trivial;
      try (now rewrite Hd1).
    repeat split; congruence.
Qed.

(** X7.  A deck whose cards are all the same text, however many,
    behaves like a deck of one card: with a wait that [time.sleep]
    accepts and no hotkey before the second loop test, the card is
    printed once and the loop then stays in lines 94-95 for ever. *)
Theorem equal_cards_deck_hangs (deck : list str) (c : str) (out0 : list str)
  (n : nat) :
  deck <> [] ->
  Forall (fun x => x = c) deck ->
  time_sleep wait = Ret tt ->
  (forall t, t <= 6 -> keys e t = false) ->
  (at_pc (show_flashcards wait e (8 + n) (World deck false out0)) = L94
   \/ at_pc (show_flashcards wait e (8 + n) (World deck false out0)) = L95)
  /\ stdout (globals (show_flashcards wait e (8 + n) (World deck false out0)))
     = out0 ++ [c]
  /\ slept (show_flashcards wait e (8 + n) (World deck false out0)) = 1.
Proof.
  intros Hne Hall Hwait Hkeys. unfold show_flashcards.
  rewrite run_add.
  set (st8 := run wait e 8 0 (loop_init (World deck false out0))).
  assert (Hrc : forall k, random_choice k deck = Ret c)
    by (intros k; now apply random_choice_all_equal).
  assert (H8 : flashcards (globals st8) = deck /\ last_card st8 = Some c
               /\ at_pc st8 = L94 /\ card st8 = c
               /\ stdout (globals st8) = out0 ++ [c] /\ slept st8 = 1).
  { subst st8. unfold loop_init. cbn [run].
    rewrite (Hkeys 0), (Hkeys 1), (Hkeys 2), (Hkeys 3), (Hkeys 4),
      (Hkeys 5), (Hkeys 6) by lia.
    repeat progress
      (cbn [step deliver same_card at_pc card last_card globals draws slept
            print stop_flashcards flashcards stdout];
       rewrite ?Hrc, ?Hwait).
    destruct (keys e 7);
      repeat progress
        (cbn [step deliver same_card at_pc card last_card globals draws slept
              print stop_flashcards flashcards stdout quit_flashcards];
         rewrite ?Hrc, ?Hwait);
      auto 10. }
  destruct H8 as (Hd & Hl & Hp & Hc & Ho & Hs).
  destruct (rechoose_among_equals c n (0 + 8) st8) as (Ha & Hb & Hcc);
    try (rewrite Hd); trivial; [now left|].
  repeat split; congruence.
Qed.

(** X8.  When [time.sleep] rejects the wait (a negative number as well
    as a str), a deck that is not empty and the flag unset at the
    first loop test give exactly one printed card, the one of the
    first draw, before the exception leaves the function. *)
Theorem rejected_wait_prints_one_card (x : exn) (w : world) (c : str)
  (cards : list str) (n : nat) :
  time_sleep wait = Raise x ->
  flashcards w = c :: cards ->
  stop_flashcards w = false ->
  keys e 0 = false ->
  at_pc (show_flashcards wait e (6 + n) w) = Raised x
  /\ stdout (globals (show_flashcards wait e (6 + n) w))
     = stdout w ++ [nth (rng e 0 mod List.length (c :: cards)) (c :: cards) c]
  /\ slept (show_flashcards wait e (6 + n) w) = 0.
Proof.
  intros Hw Hdeck Hstop Hkey. unfold show_flashcards. rewrite run_add.
  set (st6 := run wait e 6 0 (loop_init w)).
  assert (H6 : at_pc st6 = Raised x
               /\ stdout (globals st6)
                  = stdout w
                      ++ [nth (rng e 0 mod List.length (c :: cards))
                            (c :: cards) c]
               /\ slept st6 = 0).
  { subst st6. destruct w as [deck stop out].
    cbn [flashcards stop_flashcards stdout] in *.
    subst deck stop. unfold loop_init. cbn [run]. rewrite Hkey.
    loop_steps_open Hw.
    destruct (keys e 1); loop_steps_open Hw;
      destruct (keys e 2); loop_steps_open Hw;
      destruct (keys e 3); loop_steps_open Hw;
      destruct (keys e 4); loop_steps_open Hw;
      destruct (keys e 5); loop_steps_open Hw;
      repeat split. }
  destruct H6 as (Hp6 & Ho6 & Hs6).
  destruct (ended_stable wait e n (0 + 6) st6) as (Hp & Ho & Hs & _);
    [rewrite Hp6; eauto|].
  repeat split; congruence.
Qed.

End EqualCards.

(** ** More on main *)

Section MainMore.

Variable e : env.

Lemma output_finish (st : loop_state) :
  output (finish st) = stdout (globals st).
Proof. unfold finish. now destruct (at_pc st). Qed.

Lemma finish_returned (st : loop_state) (w : world) :
  finish st = Ended (Ret tt) w -> at_pc st = Returned /\ w = globals st.
Proof.
  unfold finish. destruct (at_pc st); intros H; try discriminate.
  inversion H. now split.
Qed.

Lemma main_parse_error (argv : list str) (x : exn) (n : nat) :
  parse_args argv default_namespace = Some (Raise x) ->
  main e argv n = Some (Ended (Raise x) after_splash).
Proof.
  intros Hparse. unfold main.
  change (splash initial_world) with (Ret tt, after_splash).
  cbv beta iota. now rewrite Hparse.
Qed.

Lemma main_unmodelled (argv : list str) (n : nat) :
  parse_args argv default_namespace = None -> main e argv n = None.
Proof.
  intros Hparse. unfold main.
  change (splash initial_world) with (Ret tt, after_splash).
  cbv beta iota. now rewrite Hparse.
Qed.

Lemma load_raises (path : str) (x : exn) (w : world) :
  fs e path = ReadRaises x ->
  is_OSError x = false ->
  load_flashcards (fs e) path w = (Raise x, w).
Proof.
  intros Hread Hx. unfold load_flashcards. rewrite Hread.
  destruct x; trivial; discriminate.
Qed.

Lemma main_load_raises (argv : list str) (args : namespace) (x : exn)
  (n : nat) :
  parse_args argv default_namespace = Some (Ret args) ->
  fs e (ns_flashcards args) = ReadRaises x ->
  is_OSError x = false ->
  main e argv n = Some (Ended (Raise x) after_splash).
Proof.
  intros Hparse Hread Hx. unfold main.
  change (splash initial_world) with (Ret tt, after_splash).
  cbv beta iota. rewrite Hparse. unfold load_or_exit, bind.
  now rewrite (load_raises _ _ _ Hread Hx).
Qed.

(** What [main] does up to the call of [show_flashcards]: it ends
    before the loop, the same for every [n], or it enters the loop. *)
Lemma main_cases (argv : list str) (n : nat) (p : process) :
  main e argv n = Some p ->
  (exists r w, p = Ended (Raise r) w
               /\ (w = after_splash \/ exists msg, w = print msg after_splash)
               /\ forall n', main e argv n' = Some p)
  \/ (exists args text,
        parse_args argv default_namespace = Some (Ret args)
        /\ fs e (ns_flashcards args) = ReadOk text
        /\ p = finish (show_flashcards (ns_wait args) e n
                         (set_flashcards (filter keep_card (splitlines text))
                            after_splash))).
Proof.
  intros H.
  destruct (parse_args argv default_namespace) as [[args|x]|] eqn:Hparse.
  - destruct (fs e (ns_flashcards args)) as [text|x] eqn:Hread.
    + right. exists args, text.
      rewrite (main_loaded e argv args text n Hparse Hread) in H.
      inversion H. now repeat split.
    + left. destruct (is_OSError x) eqn:Hx.
      * destruct x as [msg| | | | |]; try discriminate.
        rewrite (main_not_loaded e argv args msg n Hparse Hread) in H.
        inversion H. eexists. eexists. split; [reflexivity|].
        split; [right; now exists msg|].
        intros n'. now apply (main_not_loaded e argv args msg).
      * rewrite (main_load_raises argv args x n Hparse Hread Hx) in H.
        inversion H. eexists. eexists. split; [reflexivity|].
        split; [now left|].
        intros n'. now apply (main_load_raises argv args x).
  - left. rewrite (main_parse_error argv x n Hparse) in H. inversion H.
    eexists. eexists. split; [reflexivity|]. split; [now left|].
    intros n'. now apply main_parse_error.
  - rewrite (main_unmodelled argv n Hparse) in H. discriminate.
Qed.

Lemma returned_has_flag (wait : value) (n t : nat) (st : loop_state) :
  (at_pc st = Returned -> stop_flashcards (globals st) = true) ->
  at_pc (run wait e n t st) = Returned ->
  stop_flashcards (globals (run wait e n t st)) = true.
Proof.
  revert t st. induction n as [|n IH]; intros t st Hinv; [exact Hinv|].
  change (run wait e (S n) t st)
    with (run wait e n (S t) (step wait (rng e) (deliver (keys e t) st))).
  apply IH.
  destruct st as [p c l [deck stop out] d s].
  cbn [at_pc globals stop_flashcards] in Hinv.
  destruct (keys e t); destruct p; cbn [deliver step at_pc card last_card
    globals draws slept stop_flashcards quit_flashcards flashcards stdout];
    try discriminate; trivial;
    try (now destruct (random_choice (rng e d) deck));
    try (now destruct (same_card c l));
    try (now destruct (time_sleep wait)).
  now destruct stop.
Qed.

Lemma flag_needs_key (wait : value) (n t : nat) (st : loop_state) :
  stop_flashcards (globals st) = false ->
  stop_flashcards (globals (run wait e n t st)) = true ->
  pressed e t n = true.
Proof.
  revert t st. induction n as [|n IH]; intros t st Hs H.
  - simpl in H. congruence.
  - change (run wait e (S n) t st)
      with (run wait e n (S t) (step wait (rng e) (deliver (keys e t) st)))
      in H.
    simpl. destruct (keys e t) eqn:Hk; trivial. simpl.
    apply (IH (S t) (step wait (rng e) (deliver false st))); trivial.
    now rewrite step_stop.
Qed.

Lemma stdout_step_grows (wait : value) (st : loop_state) :
  exists more,
    stdout (globals (step wait (rng e) st)) = stdout (globals st) ++ more.
Proof.
  destruct st as [p c l [deck stop out] d s].
  destruct p; cbn [step];
    try (exists []; break_match; cbn; now rewrite app_nil_r).
  now exists [c].
Qed.

Lemma stdout_run_grows (wait : value) (n t : nat) (st : loop_state) :
  exists more,
    stdout (globals (run wait e n t st)) = stdout (globals st) ++ more.
Proof.
  revert t st. induction n as [|n IH]; intros t st.
  - exists []. simpl. now rewrite app_nil_r.
  - change (run wait e (S n) t st)
      with (run wait e n (S t) (step wait (rng e) (deliver (keys e t) st))).
    destruct (IH (S t) (step wait (rng e) (deliver (keys e t) st)))
      as [more2 H2].
    destruct (stdout_step_grows wait (deliver (keys e t) st)) as [more1 H1].
    exists (more1 ++ more2).
    now rewrite H2, H1, deliver_stdout, app_assoc.
Qed.

(** X9.  An exception of [open] or [read] that is no OSError is not
    caught by line 61: [load_flashcards] raises it without printing or
    touching the deck, and [main] ends by it after the splash screen,
    never reaching the display loop. *)
Theorem other_exception_ends_main (argv : list str) (args : namespace)
  (x : exn) :
  parse_args argv default_namespace = Some (Ret args) ->
  fs e (ns_flashcards args) = ReadRaises x ->
  is_OSError x = false ->
  (forall w, load_flashcards (fs e) (ns_flashcards args) w = (Raise x, w))
  /\ forall n, main e argv n = Some (Ended (Raise x) after_splash).
Proof.
  intros Hparse Hread Hx. split.
  - intros w. now apply load_raises.
  - intros n. now apply (main_load_raises argv args x).
Qed.

(** X10.  [main] returns normally (exit status 0) only by the stop
    flag: if the process has ended without an exception after [n]
    loop statements, the flag is set and a hotkey was pressed before
    one of those statements. *)
Theorem normal_exit_needs_hotkey (argv : list str) (n : nat) (w : world) :
  main e argv n = Some (Ended (Ret tt) w) ->
  stop_flashcards w = true /\ pressed e 0 n = true.
Proof.
  intros H. destruct (main_cases argv n _ H)
    as [(r & w' & Hp & _)|(args & text & _ & _ & Hp)]; [discriminate|].
  symmetry in Hp. apply finish_returned in Hp. destruct Hp as [Hpc ->].
  unfold show_flashcards in *.
  assert (Hs : stop_flashcards
                 (globals (run (ns_wait args) e n 0
                    (loop_init (set_flashcards
                       (filter keep_card (splitlines text)) after_splash))))
               = true)
    by (apply returned_has_flag; [discriminate|exact Hpc]).
  split; trivial.
  apply (flag_needs_key (ns_wait args) n 0
           (loop_init (set_flashcards (filter keep_card (splitlines text))
                         after_splash))); [reflexivity|exact Hs].
Qed.


(** X12.  Output is only ever appended: whatever the arguments and
    the environment, what [main] has printed starts with the three
    lines of the splash screen, and what it has printed after more
    loop statements extends what it had printed before. *)
Theorem output_only_grows (argv : list str) (n m : nat) (p q : process) :
  main e argv n = Some p ->
  main e argv (n + m) = Some q ->
  (exists rest, output p = stdout after_splash ++ rest)
  /\ (exists more, output q = output p ++ more)
  /\ stdout after_splash
     = [lit "==================="; lit "Flashcards    v1.00";
        lit "===================" ++ [LF]].
Proof.
  intros Hp Hq. split; [|split; [|reflexivity]].
  - destruct (main_cases argv n _ Hp)
      as [(r & w & -> & [-> | [msg ->]] & _)|(args & text & _ & _ & ->)].
    + exists []. cbn [output]. now rewrite app_nil_r.
    + now exists [msg].
    + rewrite output_finish. unfold show_flashcards.
      destruct (stdout_run_grows (ns_wait args) n 0
                  (loop_init (set_flashcards
                     (filter keep_card (splitlines text)) after_splash)))
        as [more Hmore].
      exists more. now rewrite Hmore.
  - destruct (main_cases argv n _ Hp)
      as [(r & w & _ & _ & Hall)|(args & text & Hparse & Hread & ->)].
    + rewrite (Hall (n + m)) in Hq. inversion Hq.
      exists []. now rewrite app_nil_r.
    + rewrite (main_loaded e argv args text (n + m) Hparse Hread) in Hq.
      inversion Hq. rewrite !output_finish. unfold show_flashcards.
      rewrite run_add. apply stdout_run_grows.
Qed.

End MainMore.

(** ** Further runs on concrete inputs *)

Lemma loop_runs_until_stopped_witness :
  let e := one_file [] (fun k => k) (fun t => 50 <=? t) in
  let w := World [lit "A"; lit "B"] false [] in
  flashcards w <> []
  /\ time_sleep (VInt 5) = Ret tt
  /\ stop_flashcards w = false
  /\ pressed e 0 40 = false
  /\ at_pc (show_flashcards (VInt 5) e 40 w) <> Returned
  /\ (forall x, at_pc (show_flashcards (VInt 5) e 40 w) <> Raised x)
  /\ stop_flashcards (globals (show_flashcards (VInt 5) e 40 w)) = false.
Proof.
  intros e w. split; [discriminate|]. split; [reflexivity|].
  split; [reflexivity|]. split; [reflexivity|].
  apply (loop_runs_until_stopped (VInt 5) e 40 w);
    [discriminate|reflexivity|reflexivity|reflexivity].
Defined.

Lemma iteration_with_rejections_witness :
  let e := one_file [] (fun k => if k <? 3 then 0 else 1) (fun t => t =? 8) in
  let st := LoopState L93 (lit "A") (Some (lit "A"))
              (World [lit "A"; lit "B"] false [lit "A"]) 1 1 in
  time_sleep (VInt 5) = Ret tt
  /\ at_pc st = L93
  /\ (forall i, i < 2 ->
        exists c,
          random_choice (rng e (draws st + i)) (flashcards (globals st)) = Ret c
          /\ same_card c (last_card st) = true)
  /\ random_choice (rng e (draws st + 2)) (flashcards (globals st))
     = Ret (lit "B")
  /\ same_card (lit "B") (last_card st) = false
  /\ at_pc (run (VInt 5) e (2 * 2 + 5) 7 st) = L92
  /\ stdout (globals (run (VInt 5) e (2 * 2 + 5) 7 st))
     = stdout (globals st) ++ [lit "B"]
  /\ last_card (run (VInt 5) e (2 * 2 + 5) 7 st) = Some (lit "B")
  /\ draws (run (VInt 5) e (2 * 2 + 5) 7 st) = draws st + 2 + 1
  /\ slept (run (VInt 5) e (2 * 2 + 5) 7 st) = S (slept st).
Proof.
  intros e st.
  assert (Hrej : forall i, i < 2 ->
            exists c,
              random_choice (rng e (draws st + i)) (flashcards (globals st))
              = Ret c
              /\ same_card c (last_card st) = true).
  { intros i Hi. destruct i as [|[|i]]; [| |lia];
      exists (lit "A"); split; reflexivity. }
  split; [reflexivity|]. split; [reflexivity|]. split; [exact Hrej|].
  split; [reflexivity|]. split; [reflexivity|].
  apply (iteration_with_rejections (VInt 5) e 7 st 2 (lit "B"));
    [reflexivity|reflexivity|exact Hrej|reflexivity|reflexivity].
Defined.

Lemma equal_cards_deck_hangs_witness :
  let e := one_file [] (fun k => k) (fun t => 7 <=? t) in
  let deck := [lit "A"; lit "A"] in
  deck <> []
  /\ Forall (fun x => x = lit "A") deck
  /\ time_sleep (VInt 5) = Ret tt
  /\ (forall t, t <= 6 -> keys e t = false)
  /\ (at_pc (show_flashcards (VInt 5) e (8 + 10) (World deck false [])) = L94
      \/ at_pc (show_flashcards (VInt 5) e (8 + 10) (World deck false []))
         = L95)
  /\ stdout (globals (show_flashcards (VInt 5) e (8 + 10)
                        (World deck false [])))
     = [] ++ [lit "A"]
  /\ slept (show_flashcards (VInt 5) e (8 + 10) (World deck false [])) = 1.
Proof.
  intros e deck.
  assert (Hne : deck <> []) by discriminate.
  assert (Hall : Forall (fun x => x = lit "A") deck)
    by (repeat constructor).
  assert (Hkeys : forall t, t <= 6 -> keys e t = false)
    by (intros t Ht; unfold e, one_file, keys; apply Nat.leb_gt; lia).
  split; [exact Hne|]. split; [exact Hall|]. split; [reflexivity|].
  split; [exact Hkeys|].
  apply (equal_cards_deck_hangs (VInt 5) e deck (lit "A") [] 10);
    [exact Hne|exact Hall|reflexivity|exact Hkeys].
Defined.

Lemma rejected_wait_prints_one_card_witness :
  let e := one_file [] (fun k => k) (fun _ => false) in
  let w := World [lit "A"; lit "B"] false [] in
  time_sleep (VInt (-1)) = Raise ValueError
  /\ flashcards w = lit "A" :: [lit "B"]
  /\ stop_flashcards w = false
  /\ keys e 0 = false
  /\ at_pc (show_flashcards (VInt (-1)) e (6 + 3) w) = Raised ValueError
  /\ stdout (globals (show_flashcards (VInt (-1)) e (6 + 3) w))
     = stdout w
         ++ [nth (rng e 0 mod List.length (lit "A" :: [lit "B"]))
               (lit "A" :: [lit "B"]) (lit "A")]
  /\ slept (show_flashcards (VInt (-1)) e (6 + 3) w) = 0.
Proof.
  intros e w. split; [reflexivity|]. split; [reflexivity|].
  split; [reflexivity|]. split; [reflexivity|].
  apply (rejected_wait_prints_one_card (VInt (-1)) e ValueError w
           (lit "A") [lit "B"] 3); reflexivity.
Defined.

Lemma other_exception_ends_main_witness :
  let x := UnicodeDecodeError (lit "invalid start byte") in
  let e := Env (fun _ => ReadRaises x) (fun k => k) (fun _ => false) in
  parse_args [] default_namespace = Some (Ret default_namespace)
  /\ fs e (ns_flashcards default_namespace) = ReadRaises x
  /\ is_OSError x = false
  /\ (forall w,
        load_flashcards (fs e) (ns_flashcards default_namespace) w
        = (Raise x, w))
  /\ forall n, main e [] n = Some (Ended (Raise x) after_splash).
Proof.
  intros x e. split; [reflexivity|]. split; [reflexivity|].
  split; [reflexivity|].
  apply (other_exception_ends_main e [] default_namespace x); reflexivity.
Defined.

Lemma normal_exit_needs_hotkey_witness :
  let e := one_file (file_text [(lit "A", EolLF); (lit "B", EolLF)] [])
             (fun k => k) (fun t => t =? 0) in
  let w := World [lit "A"; lit "B"] true (stdout after_splash) in
  main e [] 1 = Some (Ended (Ret tt) w)
  /\ stop_flashcards w = true
  /\ pressed e 0 1 = true.
Proof.
  intros e w.
  assert (H : main e [] 1 = Some (Ended (Ret tt) w))
    by (vm_compute; reflexivity).
  split; [exact H|].
  apply (normal_exit_needs_hotkey e [] 1 w H).
Defined.


Lemma output_only_grows_witness :
  let text := file_text [(lit "A", EolLF); (lit "B", EolLF)] [] in
  let e := one_file text (fun k => k) (fun _ => false) in
  let w := set_flashcards [lit "A"; lit "B"] after_splash in
  let p := finish (show_flashcards (VInt 5) e 6 w) in
  let q := finish (show_flashcards (VInt 5) e (6 + 6) w) in
  main e [] 6 = Some p
  /\ main e [] (6 + 6) = Some q
  /\ (exists rest, output p = stdout after_splash ++ rest)
  /\ (exists more, output q = output p ++ more)
  /\ stdout after_splash
     = [lit "==================="; lit "Flashcards    v1.00";
        lit "===================" ++ [LF]].
Proof.
  intros text e w p q.
  assert (Hp : main e [] 6 = Some p) by (vm_compute; reflexivity).
  assert (Hq : main e [] (6 + 6) = Some q) by (vm_compute; reflexivity).
  split; [exact Hp|]. split; [exact Hq|].
  apply (output_only_grows e [] 6 6 p q Hp Hq).
Defined.

(** ** Lines of a text file and what the loader splits *)








(** The file of the spec's example is plain, and its lines are its
    pieces. *)
Example plain_example :
  let text := file_text [(lit "What is 2+2", EolLF); (lit "# comment", EolLF);
                         (lit "Name a primary color", EolLF); ([], EolLF)]
                [] in
  plain_text text = true
  /\ text_lines text
     = [lit "What is 2+2"; lit "# comment"; lit "Name a primary color"; []]
  /\ splitlines text = text_lines text.
Proof. repeat split. Qed.

(** ** A file that cannot be opened or read *)



